(** * slack-user-mcp: the response pipeline of [index.ts]

    A shallow embedding of the parts of [src/index.ts] that transform
    the payloads of the Slack Web API before they are handed back to the
    caller:

    - [SlackClient.convertTimestampsToISO]   (timestamp normalizer),
    - [SlackClient.memoizedGetUser]          (identity resolver),
    - [SlackClient.enrichWithUserInfo]       (response enricher),
    - the gateway methods of [SlackClient] and the [CallToolRequest]
      handler of [main]                      (tool router),
    - the constructor of [SlackClient], the [fetch] call of each
      gateway method and the start of [main] (requests).

    JavaScript values that come out of [response.json()] are modelled by
    the type [json]; objects keep their entries in enumeration order.
    Numbers are binary64 values ([SpecFloat]), so that
    [parseFloat(value) * 1000] rounds as it does in the source.
    Exceptions are explicit ([completion]); the process-wide state (the
    memoization cache and the outgoing requests) is passed explicitly.
    The concurrency of the resolver is the interleaving of its events
    ([resolver_run]); a run of the enricher takes the elements of an
    array one after the other, which gives the same tree because every
    identifier has one answer.

    The file has four parts: the embedding, the definitions the
    properties are stated with, the proofs, which end with one theorem
    per claim of the specification, and further properties of the
    code. *)

From Stdlib Require Import ZArith Ascii String List Bool Lia.
From Stdlib Require Import SpecFloat.
From stdpp Require Import base option list strings gmap pretty.

Import ListNotations.
Local Open Scope string_scope.
Local Open Scope list_scope.

(* ===================================================================== *)
(** * JavaScript values                                                   *)
(* ===================================================================== *)

(** A JavaScript [number] is an IEEE 754 binary64 value. *)
Definition number := spec_float.
Definition prec64 : Z := 53.
Definition emax64 : Z := 1024.

(** The values [JSON.parse] / [response.json()] can produce ([undefined]
    is not one of them).  An object is the list of its own enumerable
    entries, in [Object.entries] order; a decoded object has no key
    twice, and nothing below depends on that. *)
#[local] Set Warnings "-register-all".
Local Unset Elimination Schemes.
Inductive json : Type :=
| JNull
| JBool (b : bool)
| JNumber (x : number)
| JString (s : string)
| JArray (items : list json)
| JObject (entries : list (string * json)).
Local Set Elimination Schemes.

(** Induction principle that reaches below arrays and objects. *)
Section json_induction.
Variable P : json -> Prop.
Hypothesis Hnull : P JNull.
Hypothesis Hbool : forall b, P (JBool b).
Hypothesis Hnumber : forall x, P (JNumber x).
Hypothesis Hstring : forall s, P (JString s).
Hypothesis Harray : forall items, Forall P items -> P (JArray items).
Hypothesis Hobject :
  forall entries, Forall (fun kv => P (snd kv)) entries -> P (JObject entries).

Fixpoint json_nested_ind (v : json) : P v :=
  match v with
  | JNull => Hnull
  | JBool b => Hbool b
  | JNumber x => Hnumber x
  | JString s => Hstring s
  | JArray items =>
      Harray items
        ((fix go (l : list json) : Forall P l :=
            match l with
            | [] => @List.Forall_nil _ P
            | x :: l' => @List.Forall_cons _ P x l' (json_nested_ind x) (go l')
            end) items)
  | JObject entries =>
      Hobject entries
        ((fix go (l : list (string * json)) : Forall (fun kv => P (snd kv)) l :=
            match l with
            | [] => @List.Forall_nil _ _
            | kv :: l' =>
                @List.Forall_cons _ (fun kv => P (snd kv)) kv l'
                  (json_nested_ind (snd kv)) (go l')
            end) entries)
  end.
End json_induction.

(** [typeof v === 'object']: true of [null], arrays and objects. *)
Definition typeof_object (v : json) : bool :=
  match v with
  | JNull | JArray _ | JObject _ => true
  | _ => false
  end.

(** ToBoolean on numbers: [0], [-0] and [NaN] are falsy. *)
Definition number_truthy (x : number) : bool :=
  match x with
  | S754_zero _ | S754_nan => false
  | _ => true
  end.

(** ToBoolean. *)
Definition truthy (v : json) : bool :=
  match v with
  | JNull => false
  | JBool b => b
  | JNumber x => number_truthy x
  | JString s => negb (String.eqb s "")
  | JArray _ | JObject _ => true
  end.

(** Property read [o.k] on an object: [None] is [undefined]. *)
Fixpoint get_field (k : string) (entries : list (string * json)) : option json :=
  match entries with
  | [] => None
  | (k', v) :: rest => if String.eqb k' k then Some v else get_field k rest
  end.

(** ToBoolean of a possibly [undefined] value. *)
Definition truthy_opt (o : option json) : bool :=
  match o with
  | Some v => truthy v
  | None => false
  end.

(** Property write [o[k] = v]: an existing entry keeps its place, a new
    one goes last. *)
Fixpoint set_field (k : string) (v : json) (entries : list (string * json))
  : list (string * json) :=
  match entries with
  | [] => [(k, v)]
  | (k', v') :: rest =>
      if String.eqb k' k then (k', v) :: rest
      else (k', v') :: set_field k v rest
  end.

(** Thrown values.  Everything thrown on the paths modelled here is an
    [Error] instance; only its [name] and [message] are observable. *)
Record js_error : Type := JsError { error_name : string; error_message : string }.

(** The outcome of evaluating an expression: a value or a throw. *)
Inductive completion (A : Type) : Type :=
| Returns (a : A)
| Throws (e : js_error).
Arguments Returns {A} a.
Arguments Throws {A} e.

Definition completion_bind {A B} (c : completion A) (k : A -> completion B)
  : completion B :=
  match c with
  | Returns a => k a
  | Throws e => Throws e
  end.

Definition completion_map {A B} (f : A -> B) (c : completion A) : completion B :=
  completion_bind c (fun a => Returns (f a)).

(** Left-to-right traversal that stops at the first throw. *)
Fixpoint map_completion {A B} (f : A -> completion B) (l : list A)
  : completion (list B) :=
  match l with
  | [] => Returns []
  | x :: rest =>
      completion_bind (f x) (fun y =>
      completion_bind (map_completion f rest) (fun rest' =>
      Returns (y :: rest')))
  end.

(* ===================================================================== *)
(** * Regular expressions                                                 *)
(* ===================================================================== *)

(** The two patterns of the source are anchored on both sides, so a
    match is a match of the whole string.  [Regex.matches] decides it with
    Brzozowski derivatives. *)
Module Regex.

Inductive regex : Type :=
| Void                                   (* matches nothing *)
| Eps                                    (* the empty string *)
| Class (p : ascii -> bool)              (* one character of a class *)
| Seq (r1 r2 : regex)
| Alt (r1 r2 : regex)
| Star (r : regex).

Definition Plus (r : regex) : regex := Seq r (Star r).
Definition Opt (r : regex) : regex := Alt r Eps.

Fixpoint nullable (r : regex) : bool :=
  match r with
  | Void => false
  | Eps => true
  | Class _ => false
  | Seq r1 r2 => nullable r1 && nullable r2
  | Alt r1 r2 => nullable r1 || nullable r2
  | Star _ => true
  end.

Fixpoint deriv (c : ascii) (r : regex) : regex :=
  match r with
  | Void => Void
  | Eps => Void
  | Class p => if p c then Eps else Void
  | Seq r1 r2 =>
      Alt (Seq (deriv c r1) r2) (if nullable r1 then deriv c r2 else Void)
  | Alt r1 r2 => Alt (deriv c r1) (deriv c r2)
  | Star r1 => Seq (deriv c r1) (Star r1)
  end.

Fixpoint matches (r : regex) (s : string) : bool :=
  match s with
  | EmptyString => nullable r
  | String c s' => matches (deriv c r) s'
  end.

(** The language of a pattern, for reference. *)
Inductive lang : regex -> string -> Prop :=
| lang_eps : lang Eps ""
| lang_class p c : p c = true -> lang (Class p) (String c "")
| lang_seq r1 r2 s1 s2 : lang r1 s1 -> lang r2 s2 -> lang (Seq r1 r2) (s1 +:+ s2)
| lang_alt_l r1 r2 s : lang r1 s -> lang (Alt r1 r2) s
| lang_alt_r r1 r2 s : lang r2 s -> lang (Alt r1 r2) s
| lang_star_nil r : lang (Star r) ""
| lang_star_cons r s1 s2 :
    lang r s1 -> lang (Star r) s2 -> lang (Star r) (s1 +:+ s2).

(** Characters that occur in some class of the pattern. *)
Fixpoint alphabet (r : regex) (c : ascii) : bool :=
  match r with
  | Void | Eps => false
  | Class p => p c
  | Seq r1 r2 | Alt r1 r2 => alphabet r1 c || alphabet r2 c
  | Star r1 => alphabet r1 c
  end.

Definition in_range (lo hi c : ascii) : bool :=
  (nat_of_ascii lo <=? nat_of_ascii c)%nat && (nat_of_ascii c <=? nat_of_ascii hi)%nat.

(** [\d] without the unicode flag: [0-9]. *)
Definition digit : ascii -> bool := in_range "0" "9".
Definition char (a : ascii) : ascii -> bool := Ascii.eqb a.

End Regex.

(** [/^\d+(\.\d+)?$/] *)
Definition numeric_string_re : Regex.regex :=
  Regex.Seq (Regex.Plus (Regex.Class Regex.digit))
    (Regex.Opt (Regex.Seq (Regex.Class (Regex.char "."))
                  (Regex.Plus (Regex.Class Regex.digit)))).

(** [/^U[A-Z0-9]+$/] *)
Definition user_id_re : Regex.regex :=
  Regex.Seq (Regex.Class (Regex.char "U"))
    (Regex.Plus (Regex.Class (fun c => Regex.in_range "A" "Z" c || Regex.in_range "0" "9" c))).

(** [String.prototype.endsWith]. *)
Definition endsWith (s suffix : string) : bool :=
  let n := String.length s in
  let m := String.length suffix in
  (m <=? n)%nat && String.eqb (substring (n - m) m s) suffix.

(* ===================================================================== *)
(** * Numbers and dates                                                   *)
(* ===================================================================== *)

Module JsNumber.
Local Open Scope Z_scope.

Definition digit_value (c : ascii) : Z := Z.of_nat (nat_of_ascii c) - 48.

(** The decimal digits of a string read as one integer. *)
Fixpoint digits_value (acc : Z) (s : string) : Z :=
  match s with
  | EmptyString => acc
  | String c s' => digits_value (10 * acc + digit_value c) s'
  end.

(** Splits ["123.45"] into ["123"] and ["45"] (no point: empty
    fraction). *)
Fixpoint split_point (s : string) : string * string :=
  match s with
  | EmptyString => (EmptyString, EmptyString)
  | String c s' =>
      if Ascii.eqb c "." then (EmptyString, s')
      else let '(i, f) := split_point s' in (String c i, f)
  end.

(** The binary64 value nearest to [n / d] (ties to even), for
    [0 <= n] and [0 < d]. *)
Definition round_quotient (n d : Z) : number :=
  match n, d with
  | Zpos pn, Zpos pd => SFdiv prec64 emax64 (S754_finite false pn 0) (S754_finite false pd 0)
  | _, _ => S754_zero false
  end.

(** [parseFloat] on a string accepted by [numeric_string_re]: the
    decimal literal [i.f] denotes [if / 10^|f|], rounded to binary64. *)
Definition parseFloat (s : string) : number :=
  let '(i, f) := split_point s in
  round_quotient (digits_value 0 (i +:+ f)) (10 ^ Z.of_nat (String.length f)).

Definition thousand : number := S754_finite false 125 3.

Definition mul (x y : number) : number := SFmul prec64 emax64 x y.

(** [m * 2^e] truncated towards zero. *)
Definition truncate (m : positive) (e : Z) : Z :=
  if 0 <=? e then Z.shiftl (Zpos m) e else Z.shiftr (Zpos m) (- e).

(** [m * 2^e > bound], exactly. *)
Definition exceeds (m : positive) (e : Z) (bound : Z) : bool :=
  if 0 <=? e then bound <? Z.shiftl (Zpos m) e
  else Z.shiftl bound (- e) <? Zpos m.
End JsNumber.

Module JsDate.
Local Open Scope Z_scope.

Definition msPerDay : Z := 86400000.
Definition maxTime : Z := 8640000000000000.

(** [new Date(value)] for a number: TimeClip.  [None] is the invalid
    date (time value [NaN]). *)
Definition TimeClip (t : number) : option Z :=
  match t with
  | S754_zero _ => Some 0
  | S754_finite s m e =>
      if JsNumber.exceeds m e maxTime then None
      else Some (if s then - JsNumber.truncate m e else JsNumber.truncate m e)
  | S754_infinity _ | S754_nan => None
  end.

Definition Day (t : Z) : Z := t / msPerDay.
Definition TimeWithinDay (t : Z) : Z := t mod msPerDay.

Definition DayFromYear (y : Z) : Z :=
  365 * (y - 1970) + (y - 1969) / 4 - (y - 1901) / 100 + (y - 1601) / 400.

Definition DaysInYear (y : Z) : Z := DayFromYear (y + 1) - DayFromYear y.

(** The largest [y] with [DayFromYear y <= Day t]: an estimate from
    the mean year length, corrected by at most one. *)
Definition YearFromDay (d : Z) : Z :=
  let y := 1970 + (400 * d) / 146097 in
  if DayFromYear (y + 1) <=? d then y + 1
  else if DayFromYear y <=? d then y
  else y - 1.

Definition YearFromTime (t : Z) : Z := YearFromDay (Day t).
Definition InLeapYear (t : Z) : Z := DaysInYear (YearFromTime t) - 365.
Definition DayWithinYear (t : Z) : Z := Day t - DayFromYear (YearFromTime t).

(** Zero-based month. *)
Definition MonthFromTime (t : Z) : Z :=
  let d := DayWithinYear t in
  let l := InLeapYear t in
  if d <? 31 then 0
  else if d <? 59 + l then 1
  else if d <? 90 + l then 2
  else if d <? 120 + l then 3
  else if d <? 151 + l then 4
  else if d <? 181 + l then 5
  else if d <? 212 + l then 6
  else if d <? 243 + l then 7
  else if d <? 273 + l then 8
  else if d <? 304 + l then 9
  else if d <? 334 + l then 10
  else 11.

Definition DateFromTime (t : Z) : Z :=
  let d := DayWithinYear t in
  let l := InLeapYear t in
  match MonthFromTime t with
  | 0 => d + 1
  | 1 => d - 30
  | 2 => d - 58 - l
  | 3 => d - 89 - l
  | 4 => d - 119 - l
  | 5 => d - 150 - l
  | 6 => d - 180 - l
  | 7 => d - 211 - l
  | 8 => d - 242 - l
  | 9 => d - 272 - l
  | 10 => d - 303 - l
  | _ => d - 333 - l
  end.

Definition HourFromTime (t : Z) : Z := (t / 3600000) mod 24.
Definition MinFromTime (t : Z) : Z := (t / 60000) mod 60.
Definition SecFromTime (t : Z) : Z := (t / 1000) mod 60.
Definition msFromTime (t : Z) : Z := t mod 1000.

Definition digit_char (d : Z) : ascii := ascii_of_nat (48 + Z.to_nat (d mod 10)).

(** [n] written with exactly [width] decimal digits (the low ones). *)
Fixpoint pad (width : nat) (n : Z) : string :=
  match width with
  | O => EmptyString
  | S w => pad w (n / 10) +:+ String (digit_char n) EmptyString
  end.

(** Four digits for years 0..9999, otherwise a sign and six digits. *)
Definition year_string (y : Z) : string :=
  if (0 <=? y) && (y <=? 9999) then pad 4 y
  else if y <? 0 then "-" +:+ pad 6 (- y)
  else "+" +:+ pad 6 y.

Definition iso_of_time (t : Z) : string :=
  year_string (YearFromTime t) +:+ "-" +:+ pad 2 (MonthFromTime t + 1) +:+ "-" +:+
  pad 2 (DateFromTime t) +:+ "T" +:+ pad 2 (HourFromTime t) +:+ ":" +:+
  pad 2 (MinFromTime t) +:+ ":" +:+ pad 2 (SecFromTime t) +:+ "." +:+
  pad 3 (msFromTime t) +:+ "Z".

Definition invalid_time_value : js_error :=
  JsError "RangeError" "Invalid time value".

(** [Date.prototype.toISOString]: a [RangeError] on the invalid date. *)
Definition toISOString (d : option Z) : completion string :=
  match d with
  | Some t => Returns (iso_of_time t)
  | None => Throws invalid_time_value
  end.
End JsDate.

(* ===================================================================== *)
(** * Timestamp normalizer                                                *)
(* ===================================================================== *)

(** [key === 'ts' || key === 'thread_ts' || key === 'timestamp' ||
    key.endsWith('_ts')] *)
Definition is_timestamp_key (key : string) : bool :=
  String.eqb key "ts" || String.eqb key "thread_ts" ||
  String.eqb key "timestamp" || endsWith key "_ts".

(** [typeof value === 'string' && /^\d+(\.\d+)?$/.test(value)] *)
Definition is_numeric_string (value : json) : bool :=
  match value with
  | JString s => Regex.matches numeric_string_re s
  | _ => false
  end.

(** [new Date(parseFloat(value) * 1000).toISOString()] *)
Definition timestamp_to_iso (value : string) : completion string :=
  let timestamp := JsNumber.parseFloat value in
  JsDate.toISOString (JsDate.TimeClip (JsNumber.mul timestamp JsNumber.thousand)).

(** One pass of the [for ... of Object.entries(converted)] loop: the
    value stored under [key] afterwards. *)
Definition convert_entry (recurse : json -> completion json)
    (key : string) (value : json) : completion json :=
  if is_timestamp_key key && is_numeric_string value then
    match value with
    | JString s => completion_map JString (timestamp_to_iso s)
    | _ => Returns value
    end
  else if typeof_object value then recurse value
  else Returns value.

(** [SlackClient.convertTimestampsToISO].  [obj.map(...)] and the loop
    over the entries of the copy [{ ...obj }] both run left to right and
    stop at the first throw. *)
Fixpoint convertTimestampsToISO (obj : json) : completion json :=
  match obj with
  | JNull => Returns obj
  | JArray items =>
      completion_map JArray (map_completion convertTimestampsToISO items)
  | JObject entries =>
      completion_map JObject
        (map_completion
           (fun kv => completion_map (pair (fst kv))
                        (convert_entry convertTimestampsToISO (fst kv) (snd kv)))
           entries)
  | _ => Returns obj
  end.

(* ===================================================================== *)
(** * Identity resolver                                                   *)
(* ===================================================================== *)

(** The declared result type of [memoizedGetUser]:
    [{displayName: string, username: string}]. *)
Record IdentityRecord : Type :=
  { displayName : string; username : string }.

(** What [users.info] answers, as far as the resolver reads it:
    [data.ok], [data.user], [data.user.profile?.display_name],
    [data.user.real_name] and [data.user.name].  [None] is an absent
    (or [null]) property. *)
Record slack_profile : Type := { display_name : option string }.
Record slack_user : Type :=
  { profile : option slack_profile;
    real_name : option string;
    name : option string }.
Record users_info_data : Type := { ok : bool; user : option slack_user }.

(** How one upstream lookup can end. *)
Inductive lookup_outcome : Type :=
| FetchRejects (e : js_error)       (* [fetch] rejects: network error *)
| JsonRejects (e : js_error)        (* [response.json()] rejects: malformed body *)
| JsonNull                          (* the body is [null]: [data.ok] throws *)
| JsonData (data : users_info_data).

(** [a || b] on a possibly absent string: the empty string is falsy. *)
Definition or_else (a : option string) (b : string) : string :=
  match a with
  | Some s => if String.eqb s "" then b else s
  | None => b
  end.

Definition degraded (userId : string) : IdentityRecord :=
  {| displayName := userId; username := userId |}.

Definition try_catch {A} (body : completion A) (handler : js_error -> completion A)
  : completion A :=
  match body with
  | Returns a => Returns a
  | Throws e => handler e
  end.

(** The [async (userId) => { try { ... } catch (error) { ... } }] that
    is handed to [pMemoize], run against the outcome of its [fetch].
    The [console.error] of the handler is not modelled. *)
Definition getUser (userId : string) (outcome : lookup_outcome)
  : completion IdentityRecord :=
  try_catch
    (match outcome with
     | FetchRejects e => Throws e
     | JsonRejects e => Throws e
     | JsonNull =>
         Throws (JsError "TypeError" "Cannot read properties of null (reading 'ok')")
     | JsonData data =>
         match ok data, user data with
         | true, Some u =>
             Returns
               {| displayName :=
                    or_else (match profile u with
                             | Some p => display_name p
                             | None => None
                             end)
                      (or_else (real_name u) (or_else (name u) userId));
                  username := or_else (name u) userId |}
         | _, _ => Returns (degraded userId)
         end
     end)
    (fun error => Returns (degraded userId)).

(** ** The memoizer *)

(** An entry of the resolution cache.  [ticket] numbers the upstream
    lookup the entry stands for (its position in [issued]). *)
Inductive memo_entry : Type :=
| InFlight (ticket : nat)
| Resolved (ticket : nat) (value : IdentityRecord).

Record memo_state : Type :=
  { entries : gmap string memo_entry;
    issued : list string  (* the upstream lookups started so far, oldest first *) }.

Definition memo_init : memo_state := {| entries := ∅; issued := [] |}.

(** What a caller of the memoized function holds: the lookup whose
    outcome it observes, and the value when it is already there. *)
Record memo_answer : Type :=
  { observed : nat; available : option IdentityRecord }.

(** Modelled from the spec: [pMemoize] comes from the package
    [p-memoize], which is not under [src/].  Following the Resolution
    Cache of the spec (a map from identifier to an in-flight or resolved
    record, never evicted): on a miss the in-flight entry is inserted
    before the lookup starts, so that concurrent callers find and await
    it; a caller that finds an entry starts nothing. *)
Definition memo_call (key : string) (st : memo_state) : memo_answer * memo_state :=
  match entries st !! key with
  | Some (InFlight n) => ({| observed := n; available := None |}, st)
  | Some (Resolved n r) => ({| observed := n; available := Some r |}, st)
  | None =>
      let n := length (issued st) in
      ({| observed := n; available := None |},
       {| entries := <[key := InFlight n]> (entries st);
          issued := issued st ++ [key] |})
  end.

(** Modelled from the spec: the in-flight lookup of [key] settles with
    the completion of the wrapped function.  A fulfilled result is kept
    for the life of the process; a rejected one leaves no entry. *)
Definition memo_settle (key : string) (result : completion IdentityRecord)
    (st : memo_state) : memo_state :=
  match entries st !! key with
  | Some (InFlight n) =>
      match result with
      | Returns r => {| entries := <[key := Resolved n r]> (entries st); issued := issued st |}
      | Throws _ => {| entries := delete key (entries st); issued := issued st |}
      end
  | _ => st
  end.

(** The events of the resolver, in any interleaving: a site calls
    [memoizedGetUser(id)], or the pending [fetch] for [id] ends. *)
Inductive resolver_event : Type :=
| Request (id : string)
| Response (id : string) (outcome : lookup_outcome).

Definition resolver_step (ev : resolver_event) (st : memo_state)
  : list (string * memo_answer) * memo_state :=
  match ev with
  | Request id => let '(a, st') := memo_call id st in ([(id, a)], st')
  | Response id outcome => ([], memo_settle id (getUser id outcome) st)
  end.

(** Runs a trace; returns the answers handed out, oldest first. *)
Fixpoint resolver_run (trace : list resolver_event) (st : memo_state)
  : list (string * memo_answer) * memo_state :=
  match trace with
  | [] => ([], st)
  | ev :: rest =>
      let '(a, st1) := resolver_step ev st in
      let '(b, st2) := resolver_run rest st1 in
      (a ++ b, st2)
  end.

Definition requested (id : string) (trace : list resolver_event) : bool :=
  existsb (fun ev => match ev with
                     | Request id' => String.eqb id' id
                     | Response _ _ => false
                     end) trace.

Definition lookups_for (id : string) (st : memo_state) : nat :=
  length (filter (fun id' => id' = id) (issued st)).

(** Whether the trace has a response for [id]. *)
Definition responded (id : string) (trace : list resolver_event) : bool :=
  existsb (fun ev => match ev with
                     | Request _ => false
                     | Response id' _ => String.eqb id' id
                     end) trace.

(** The identifiers the trace requests, in order. *)
Definition request_ids (trace : list resolver_event) : list string :=
  flat_map (fun ev => match ev with
                      | Request id => [id]
                      | Response _ _ => []
                      end) trace.

(* ===================================================================== *)
(** * Tool catalog                                                        *)
(* ===================================================================== *)

(** The tool descriptors of the source, as far as the router's checks
    go: the name and the [required] list of the input schema. *)
Record Tool : Type := { tool_name : string; required : list string }.

Definition listChannelsTool : Tool :=
  {| tool_name := "slack_list_channels"; required := [] |}.
Definition postMessageTool : Tool :=
  {| tool_name := "slack_post_message"; required := ["channel_id"; "text"] |}.
Definition replyToThreadTool : Tool :=
  {| tool_name := "slack_reply_to_thread";
     required := ["channel_id"; "thread_ts"; "text"] |}.
Definition addReactionTool : Tool :=
  {| tool_name := "slack_add_reaction";
     required := ["channel_id"; "timestamp"; "reaction"] |}.
Definition getChannelHistoryTool : Tool :=
  {| tool_name := "slack_get_channel_history"; required := ["channel_id"] |}.
Definition getThreadRepliesTool : Tool :=
  {| tool_name := "slack_get_thread_replies"; required := ["channel_id"; "thread_ts"] |}.
Definition getUsersTool : Tool :=
  {| tool_name := "slack_get_users"; required := [] |}.
Definition getUserProfileTool : Tool :=
  {| tool_name := "slack_get_user_profile"; required := ["user_id"] |}.
Definition searchMessagesTool : Tool :=
  {| tool_name := "slack_search_messages"; required := ["query"] |}.

(** The answer to [ListToolsRequest]. *)
Definition tools : list Tool :=
  [ listChannelsTool; postMessageTool; replyToThreadTool; addReactionTool;
    getChannelHistoryTool; getThreadRepliesTool; getUsersTool;
    getUserProfileTool; searchMessagesTool ].

(* ===================================================================== *)
(** * The client: state, effects                                          *)
(* ===================================================================== *)

(** A call of one of the gateway methods of [SlackClient], with the
    arguments the handler passes ([None] is [undefined]). *)
Inductive gateway_call : Type :=
| GetChannels (limit cursor : option json)
| PostMessage (channel_id text : option json)
| PostReply (channel_id thread_ts text : option json)
| AddReaction (channel_id timestamp reaction : option json)
| GetChannelHistory (channel_id limit : option json)
| GetThreadReplies (channel_id thread_ts : option json)
| GetUsers (limit cursor : option json)
| GetUserProfile (user_id : option json)
| SearchMessages (query count cursor highlight sort sort_dir : option json).

(** The state of the process: the cache behind [memoizedGetUser] and
    the gateway requests sent so far, oldest first. *)
Record client_state : Type :=
  { memo : memo_state; requests : list gateway_call }.

Definition client_init : client_state :=
  {| memo := memo_init; requests := [] |}.

(** Computations of the client: they read and change the state and end
    with a value or a throw. *)
Definition M (A : Type) : Type := client_state -> completion A * client_state.

Definition ret {A} (a : A) : M A := fun st => (Returns a, st).
Definition throw {A} (e : js_error) : M A := fun st => (Throws e, st).
Definition lift {A} (c : completion A) : M A := fun st => (c, st).

Definition bind {A B} (m : M A) (k : A -> M B) : M B :=
  fun st =>
    match m st with
    | (Returns a, st') => k a st'
    | (Throws e, st') => (Throws e, st')
    end.

(** [try { m } catch (error) { handler }] *)
Definition catch {A} (m : M A) (handler : js_error -> M A) : M A :=
  fun st =>
    match m st with
    | (Returns a, st') => (Returns a, st')
    | (Throws e, st') => handler e st'
    end.

Declare Scope client_scope.
Delimit Scope client_scope with client.
Notation "'let*' x ':=' m 'in' k" := (bind m (fun x => k))
  (at level 10, x name, m at level 100, k at level 200) : client_scope.
Local Open Scope client_scope.

Fixpoint mapM {A B} (f : A -> M B) (l : list A) : M (list B) :=
  match l with
  | [] => ret []
  | x :: rest =>
      let* y := f x in
      let* rest' := mapM f rest in
      ret (y :: rest')
  end.

Definition Error (message : string) : js_error := JsError "Error" message.

Fixpoint depth (v : json) : nat :=
  match v with
  | JArray items => S (list_max (map depth items))
  | JObject entries => S (list_max (map (fun kv => depth (snd kv)) entries))
  | _ => 0
  end.

(** The text of a content item is always [JSON.stringify] of a value;
    the model keeps that value. *)
Inductive serialized : Type := JSON_stringify (value : json).
Record content_item : Type := { type : string; text : serialized }.
Record tool_result : Type := { content : list content_item }.

Definition text_result (response : json) : tool_result :=
  {| content := [ {| type := "text"; text := JSON_stringify response |} ] |}.

Section Client.
(** The world outside the process.  [users_info id] is how the
    [users.info] lookup for [id] ends; [slack_api c] is the [data] a
    gateway method obtains from [await response.json()], or the throw
    of anything before that line (building the request, [fetch],
    decoding the body). *)
Variable users_info : string -> lookup_outcome.
Variable slack_api : gateway_call -> completion json.

(** [await this.memoizedGetUser(userId)] in one step: the call, and
    when the value is not there yet, the end of the lookup. *)
Definition memoizedGetUser (userId : string) : M IdentityRecord :=
  fun st =>
    let '(answer, m1) := memo_call userId (memo st) in
    match available answer with
    | Some r => (Returns r, {| memo := m1; requests := requests st |})
    | None =>
        let result := getUser userId (users_info userId) in
        (result, {| memo := memo_settle userId result m1; requests := requests st |})
    end.

(** [enriched.user && typeof enriched.user === 'string' &&
    enriched.user.match(/^U[A-Z0-9]+$/) && !enriched.user_display_name]:
    the identifier to resolve, if the test passes. *)
Definition user_to_resolve (enriched : list (string * json)) : option string :=
  match get_field "user" enriched with
  | Some (JString u) =>
      if truthy (JString u) && Regex.matches user_id_re u &&
         negb (truthy_opt (get_field "user_display_name" enriched))
      then Some u else None
  | _ => None
  end.

(** The first half of the object case: the copy [{ ...obj }] with the
    two names written into it when the test passes. *)
Definition add_user_info (entries : list (string * json)) : M (list (string * json)) :=
  match user_to_resolve entries with
  | Some u =>
      let* userInfo := memoizedGetUser u in
      ret (set_field "user_username" (JString (username userInfo))
             (set_field "user_display_name" (JString (displayName userInfo)) entries))
  | None => ret entries
  end.

(** [SlackClient.enrichWithUserInfo], with the recursion bounded by
    [fuel].  The elements of an array ([Promise.all]) are taken left to
    right. *)
Fixpoint enrich_fuel (fuel : nat) (obj : json) : M json :=
  match fuel with
  | O => ret obj
  | S fuel' =>
      match obj with
      | JArray items =>
          let* items' := mapM (enrich_fuel fuel') items in
          ret (JArray items')
      | JObject entries =>
          let* enriched := add_user_info entries in
          let* enriched' :=
            mapM (fun kv =>
                    if typeof_object (snd kv) then
                      let* value' := enrich_fuel fuel' (snd kv) in
                      ret (fst kv, value')
                    else ret kv) enriched in
          ret (JObject enriched')
      | _ => ret obj  (* [!obj || typeof obj !== 'object'] *)
      end
  end.

(** The fuel is the height of the tree, which the recursion never
    exceeds (see [enrich_fuel_enough]). *)
Definition enrichWithUserInfo (obj : json) : M json :=
  enrich_fuel (S (depth obj)) obj.

(** ** Gateway methods *)

(** Everything up to [const data = await response.json()]: the call of
    the gateway method is recorded, and [slack_api c] is how the method
    gets on up to there.  A method called with arguments of its
    declared types sends one [fetch] ([fetch_of]); called with other
    arguments it can throw before it ([getChannelHistory] with the
    limit [null]), and the record then holds a call that sent
    nothing. *)
Definition request (c : gateway_call) : M json :=
  fun st => (slack_api c, {| memo := memo st; requests := requests st ++ [c] |}).

Definition normalized (c : gateway_call) : M json :=
  let* data := request c in
  lift (convertTimestampsToISO data).

Definition normalized_and_enriched (c : gateway_call) : M json :=
  let* data := request c in
  let* converted := lift (convertTimestampsToISO data) in
  enrichWithUserInfo converted.

Definition getChannels (limit cursor : option json) : M json :=
  normalized (GetChannels limit cursor).
Definition postMessage (channel_id text : option json) : M json :=
  normalized (PostMessage channel_id text).
Definition postReply (channel_id thread_ts text : option json) : M json :=
  normalized (PostReply channel_id thread_ts text).
Definition addReaction (channel_id timestamp reaction : option json) : M json :=
  normalized (AddReaction channel_id timestamp reaction).
Definition getChannelHistory (channel_id limit : option json) : M json :=
  normalized_and_enriched (GetChannelHistory channel_id limit).
Definition getThreadReplies (channel_id thread_ts : option json) : M json :=
  normalized_and_enriched (GetThreadReplies channel_id thread_ts).
Definition getUsers (limit cursor : option json) : M json :=
  normalized (GetUsers limit cursor).
Definition getUserProfile (user_id : option json) : M json :=
  normalized (GetUserProfile user_id).
Definition searchMessages (query count cursor highlight sort sort_dir : option json)
  : M json :=
  normalized_and_enriched (SearchMessages query count cursor highlight sort sort_dir).

(** ** The [CallToolRequest] handler *)

(** [!args.k] *)
Definition missing (k : string) (args : list (string * json)) : bool :=
  negb (truthy_opt (get_field k args)).

Definition reply (m : M json) : M tool_result :=
  let* response := m in ret (text_result response).

(** The body of the [try] block. *)
Definition dispatch (name : string) (arguments : option (list (string * json)))
  : M tool_result :=
  match arguments with
  | None => throw (Error "No arguments provided")
  | Some args =>
      let arg k := get_field k args in
      if String.eqb name "slack_list_channels" then
        reply (getChannels (arg "limit") (arg "cursor"))
      else if String.eqb name "slack_post_message" then
        if missing "channel_id" args || missing "text" args then
          throw (Error "Missing required arguments: channel_id and text")
        else reply (postMessage (arg "channel_id") (arg "text"))
      else if String.eqb name "slack_reply_to_thread" then
        if missing "channel_id" args || missing "thread_ts" args || missing "text" args then
          throw (Error "Missing required arguments: channel_id, thread_ts, and text")
        else reply (postReply (arg "channel_id") (arg "thread_ts") (arg "text"))
      else if String.eqb name "slack_add_reaction" then
        if missing "channel_id" args || missing "timestamp" args || missing "reaction" args then
          throw (Error "Missing required arguments: channel_id, timestamp, and reaction")
        else reply (addReaction (arg "channel_id") (arg "timestamp") (arg "reaction"))
      else if String.eqb name "slack_get_channel_history" then
        if missing "channel_id" args then
          throw (Error "Missing required argument: channel_id")
        else reply (getChannelHistory (arg "channel_id") (arg "limit"))
      else if String.eqb name "slack_get_thread_replies" then
        if missing "channel_id" args || missing "thread_ts" args then
          throw (Error "Missing required arguments: channel_id and thread_ts")
        else reply (getThreadReplies (arg "channel_id") (arg "thread_ts"))
      else if String.eqb name "slack_get_users" then
        reply (getUsers (arg "limit") (arg "cursor"))
      else if String.eqb name "slack_get_user_profile" then
        if missing "user_id" args then
          throw (Error "Missing required argument: user_id")
        else reply (getUserProfile (arg "user_id"))
      else if String.eqb name "slack_search_messages" then
        if missing "query" args then
          throw (Error "Missing required argument: query")
        else reply (searchMessages (arg "query") (arg "count") (arg "cursor")
                      (arg "highlight") (arg "sort") (arg "sort_dir"))
      else throw (Error ("Unknown tool: " +:+ name))
  end.

(** [error instanceof Error ? error.message : String(error)], wrapped. *)
Definition error_result (error : js_error) : tool_result :=
  text_result (JObject [("error", JString (error_message error))]).

(** The handler registered for [CallToolRequestSchema]. *)
Definition callTool (name : string) (arguments : option (list (string * json)))
  : M tool_result :=
  catch (dispatch name arguments) (fun error => ret (error_result error)).

End Client.

(* ===================================================================== *)
(** * The requests of the gateway                                      *)
(* ===================================================================== *)

(** The number a decimal integer literal of the source denotes. *)
Definition number_of_Z (n : Z) : number := binary_normalize prec64 emax64 n 0 false.

Definition is_nan (x : number) : bool :=
  match x with S754_nan => true | _ => false end.

(** [x < y] on numbers. *)
Definition number_lt (x y : number) : bool := SFltb x y.

(** [x <= y] on numbers. *)
Definition number_le (x y : number) : bool := SFleb x y.

(** [Math.min(x, y)]: [NaN] if one of them is, otherwise the smaller
    one, [-0] being smaller than [+0]. *)
Definition Math_min (x y : number) : number :=
  if is_nan x || is_nan y then S754_nan
  else
    let lowest := if number_lt x (S754_infinity false) then x else S754_infinity false in
    match y, lowest with
    | S754_zero true, S754_zero false => y
    | _, _ => if number_lt y lowest then y else lowest
    end.

(** [String.prototype.startsWith]. *)
Definition startsWith (s p : string) : bool := String.prefix p s.

(** The fields of [SlackClient] that its constructor sets. *)
Record SlackClient : Type :=
  { headers : list (string * string); isUserToken : bool }.

(** [new SlackClient(token)]. *)
Definition new_SlackClient (token : string) : SlackClient :=
  {| headers := [("Authorization", "Bearer " +:+ token);
                 ("Content-Type", "application/json")];
     isUserToken := startsWith token "xoxp-" |}.

(** A call of [fetch].  [search] is the [URLSearchParams] object that
    is interpolated after the [?] of the URL (its serialization is not
    modelled); [body] is the object handed to [JSON.stringify]. *)
Record fetch_call : Type :=
  { url : string;
    search : list (string * string);
    method : string;
    fetch_headers : list (string * string);
    body : option serialized }.

(** A property [k: v] of an object literal under [JSON.stringify]: an
    [undefined] value leaves the property out. *)
Definition property (k : string) (v : option json) : list (string * json) :=
  match v with Some x => [(k, x)] | None => [] end.

(** An argument declared [string]. *)
Definition string_argument (v : option json) : option string :=
  match v with Some (JString s) => Some s | _ => None end.

(** An argument declared [number] with a default value. *)
Definition number_argument (default : number) (v : option json) : option number :=
  match v with
  | None => Some default
  | Some (JNumber x) => Some x
  | _ => None
  end.

(** [if (v) params.append(k, v)] for an optional string: nothing for a
    falsy value of any type. *)
Definition append_if_truthy (k : string) (v : option json)
  : option (list (string * string)) :=
  if truthy_opt v then
    match v with Some (JString s) => Some [(k, s)] | _ => None end
  else Some [].

Section Gateway.
(** [Number.prototype.toString] and the environment of the process. *)
Variable Number_toString : number -> string.
Variable env : string -> option string.
Variable client : SlackClient.

(** [process.env.SLACK_TEAM_ID!] as a value of [URLSearchParams]. *)
Definition team_id : string :=
  match env "SLACK_TEAM_ID" with Some s => s | None => "undefined" end.

Definition get (base : string) (params : list (string * string)) : fetch_call :=
  {| url := base; search := params; method := "GET";
     fetch_headers := headers client; body := None |}.

Definition post (base : string) (object : list (string * json)) : fetch_call :=
  {| url := base; search := []; method := "POST";
     fetch_headers := headers client;
     body := Some (JSON_stringify (JObject object)) |}.

(** The [fetch] of each gateway method, for arguments of the declared
    types ([None] where an argument is of another type). *)
Definition fetch_of (c : gateway_call) : option fetch_call :=
  match c with
  | GetChannels limit cursor =>
      limit' ← number_argument (number_of_Z 100) limit;
      cursor' ← append_if_truthy "cursor" cursor;
      Some (get "https://slack.com/api/conversations.list?"
              ([("types", "public_channel"); ("exclude_archived", "true");
                ("limit", Number_toString (Math_min limit' (number_of_Z 200)));
                ("team_id", team_id)] ++ cursor'))
  | PostMessage channel_id text =>
      Some (post "https://slack.com/api/chat.postMessage"
              (property "channel" channel_id ++ property "text" text ++
               [("as_user", JBool (isUserToken client))]))
  | PostReply channel_id thread_ts text =>
      Some (post "https://slack.com/api/chat.postMessage"
              (property "channel" channel_id ++ property "thread_ts" thread_ts ++
               property "text" text ++ [("as_user", JBool (isUserToken client))]))
  | AddReaction channel_id timestamp reaction =>
      Some (post "https://slack.com/api/reactions.add"
              (property "channel" channel_id ++ property "timestamp" timestamp ++
               property "name" reaction))
  | GetChannelHistory channel_id limit =>
      channel ← string_argument channel_id;
      limit' ← number_argument (number_of_Z 10) limit;
      Some (get "https://slack.com/api/conversations.history?"
              [("channel", channel); ("limit", Number_toString limit')])
  | GetThreadReplies channel_id thread_ts =>
      channel ← string_argument channel_id;
      ts ← string_argument thread_ts;
      Some (get "https://slack.com/api/conversations.replies?"
              [("channel", channel); ("ts", ts)])
  | GetUsers limit cursor =>
      limit' ← number_argument (number_of_Z 100) limit;
      cursor' ← append_if_truthy "cursor" cursor;
      Some (get "https://slack.com/api/users.list?"
              ([("limit", Number_toString (Math_min limit' (number_of_Z 200)));
                ("team_id", team_id)] ++ cursor'))
  | GetUserProfile user_id =>
      user ← string_argument user_id;
      Some (get "https://slack.com/api/users.profile.get?"
              [("user", user); ("include_labels", "true")])
  | SearchMessages query count cursor highlight sort sort_dir =>
      query' ← string_argument query;
      count' ← number_argument (number_of_Z 20) count;
      cursor' ← append_if_truthy "cursor" cursor;
      sort' ← append_if_truthy "sort" sort;
      sort_dir' ← append_if_truthy "sort_dir" sort_dir;
      Some (get "https://slack.com/api/search.messages?"
              ([("query", query');
                ("count", Number_toString (Math_min count' (number_of_Z 100)));
                ("team_id", team_id)] ++ cursor' ++
               (if truthy_opt highlight then [("highlight", "true")] else []) ++
               sort' ++ sort_dir'))
  end.

(** The [fetch] of the resolver: the identifier goes into the URL as it
    is. *)
Definition users_info_fetch (userId : string) : fetch_call :=
  get ("https://slack.com/api/users.info?user=" +:+ userId) [].
End Gateway.

(** ** Start of the process *)

(** [a || b] on two environment variables. *)
Definition env_or (a b : option string) : option string :=
  match a with
  | Some s => if String.eqb s "" then b else a
  | None => b
  end.

Inductive startup : Type :=
| Exit (code : Z) (stderr : string)
| Started (slackClient : SlackClient).

Definition please_set : string :=
  "Please set SLACK_TOKEN (or SLACK_BOT_TOKEN) and SLACK_TEAM_ID environment variables".

(** [main] up to [new SlackClient(token)]: [!token || !teamId] holds
    when one of the two is [undefined] or empty. *)
Definition main (env : string -> option string) : startup :=
  let token := env_or (env "SLACK_TOKEN") (env "SLACK_BOT_TOKEN") in
  let teamId := env "SLACK_TEAM_ID" in
  match token, teamId with
  | Some t, Some team =>
      if String.eqb t "" || String.eqb team "" then Exit 1 please_set
      else Started (new_SlackClient t)
  | _, _ => Exit 1 please_set
  end.

(* ===================================================================== *)
(** * Properties: definitions                                             *)
(* ===================================================================== *)

(** ** Timestamp normalizer *)

Fixpoint string_forall (p : ascii -> bool) (s : string) : bool :=
  match s with
  | EmptyString => true
  | String c s' => p c && string_forall p s'
  end.

(** The first day of a month (zero-based) within its year. *)
Definition first_day_of_month (month leap : Z) : Z :=
  match month with
  | 0 => 0 | 1 => 31 | 2 => 59 + leap | 3 => 90 + leap | 4 => 120 + leap
  | 5 => 151 + leap | 6 => 181 + leap | 7 => 212 + leap | 8 => 243 + leap
  | 9 => 273 + leap | 10 => 304 + leap | _ => 334 + leap
  end%Z.

(** The instant, in milliseconds since the epoch, that the fields of an
    ISO string denote. *)
Definition instant_of (year month date hours minutes seconds ms : Z) : Z :=
  ((JsDate.DayFromYear year
    + first_day_of_month month (JsDate.DaysInYear year - 365)
    + (date - 1)) * JsDate.msPerDay
   + hours * 3600000 + minutes * 60000 + seconds * 1000 + ms)%Z.

(** Whether every timestamp field of the tree that the normalizer
    converts denotes a valid [Date]. *)
Fixpoint timestamps_in_range (obj : json) : bool :=
  match obj with
  | JArray items => forallb timestamps_in_range items
  | JObject entries =>
      forallb (fun kv =>
                 if is_timestamp_key (fst kv) && is_numeric_string (snd kv) then
                   match snd kv with
                   | JString s =>
                       match timestamp_to_iso s with
                       | Returns _ => true
                       | Throws _ => false
                       end
                   | _ => true
                   end
                 else timestamps_in_range (snd kv)) entries
  | _ => true
  end.

(** The contract of the normalizer in the words of the specification.
    A field is either converted (timestamp key, numeric-string value:
    it now holds the ISO string of that value) or kept (anything else:
    its value is related by [R]). *)
Inductive entry_normalized (R : json -> json -> Prop)
  : string * json -> string * json -> Prop :=
| entry_converted key s iso :
    is_timestamp_key key = true ->
    Regex.matches numeric_string_re s = true ->
    timestamp_to_iso s = Returns iso ->
    entry_normalized R (key, JString s) (key, JString iso)
| entry_kept key value value' :
    is_timestamp_key key && is_numeric_string value = false ->
    R value value' ->
    entry_normalized R (key, value) (key, value').

(** [normalized_as T T']: [T'] has the shape of [T], with the same keys
    in the same order and the same array lengths; converted fields
    apart, every leaf is unchanged. *)
Inductive normalized_as : json -> json -> Prop :=
| normalized_null : normalized_as JNull JNull
| normalized_bool b : normalized_as (JBool b) (JBool b)
| normalized_number x : normalized_as (JNumber x) (JNumber x)
| normalized_string s : normalized_as (JString s) (JString s)
| normalized_array items items' :
    Forall2 normalized_as items items' ->
    normalized_as (JArray items) (JArray items')
| normalized_object entries entries' :
    Forall2 (entry_normalized normalized_as) entries entries' ->
    normalized_as (JObject entries) (JObject entries').

(** ** Identity resolver *)

Definition entry_ticket (e : memo_entry) : nat :=
  match e with InFlight n | Resolved n _ => n end.

(** Every entry stands for exactly one upstream lookup, and an
    identifier without entry has never been looked up. *)
Definition memo_wf (st : memo_state) : Prop :=
  forall id,
    match entries st !! id with
    | Some e => issued st !! entry_ticket e = Some id /\ lookups_for id st = 1
    | None => lookups_for id st = 0
    end.

(** An answer agrees with the cache: it names the lookup of the entry,
    and a value it carries is the entry's value. *)
Definition answer_consistent (st : memo_state) (x : string * memo_answer) : Prop :=
  exists e, entries st !! fst x = Some e /\
            entry_ticket e = observed (snd x) /\
            forall r, available (snd x) = Some r -> e = Resolved (observed (snd x)) r.

(** The ways a lookup fails: the network, the body, or an answer that
    is not [ok] or carries no user. *)
Definition lookup_failed (outcome : lookup_outcome) : bool :=
  match outcome with
  | FetchRejects _ | JsonRejects _ | JsonNull => true
  | JsonData data =>
      negb (ok data) || match user data with Some _ => false | None => true end
  end.

(** ** Response enricher *)

(** The record [await this.memoizedGetUser(id)] yields in state [st]. *)
Definition resolve (users_info : string -> lookup_outcome) (st : client_state)
    (id : string) : IdentityRecord :=
  match fst (memoizedGetUser users_info id st) with
  | Returns r => r
  | Throws _ => degraded id
  end.

(** [add_user_info] for a resolver that is a function of the
    identifier. *)
Definition with_user_info (r : string -> IdentityRecord)
    (entries : list (string * json)) : list (string * json) :=
  match user_to_resolve entries with
  | Some u =>
      set_field "user_username" (JString (username (r u)))
        (set_field "user_display_name" (JString (displayName (r u))) entries)
  | None => entries
  end.

(** The tree [enrich_fuel] returns when every lookup answers as [r]. *)
Fixpoint enriched_tree (r : string -> IdentityRecord) (fuel : nat) (obj : json) : json :=
  match fuel with
  | O => obj
  | S fuel' =>
      match obj with
      | JArray items => JArray (map (enriched_tree r fuel') items)
      | JObject entries =>
          JObject (map (fun kv =>
                          if typeof_object (snd kv)
                          then (fst kv, enriched_tree r fuel' (snd kv))
                          else kv) (with_user_info r entries))
      | _ => obj
      end
  end.

(** A place in a tree: the keys and indices that lead to it. *)
Inductive step : Type := Key (k : string) | Index (i : nat).

Fixpoint subtree_at (p : list step) (v : json) : option json :=
  match p with
  | [] => Some v
  | Key k :: p' =>
      match v with
      | JObject entries =>
          match get_field k entries with
          | Some v' => subtree_at p' v'
          | None => None
          end
      | _ => None
      end
  | Index i :: p' =>
      match v with
      | JArray items =>
          match items !! i with
          | Some v' => subtree_at p' v'
          | None => None
          end
      | _ => None
      end
  end.

Definition is_some {A} (o : option A) : bool :=
  match o with Some _ => true | None => false end.

(** Whether the path enters the [user_username] field of an object that
    passes the enrichment test: that field is written over before the
    descent. *)
Fixpoint overwritten (p : list step) (v : json) : bool :=
  match p, v with
  | Key k :: p', JObject entries =>
      (String.eqb k "user_username" && is_some (user_to_resolve entries)) ||
      match get_field k entries with
      | Some v' => overwritten p' v'
      | None => false
      end
  | Index i :: p', JArray items =>
      match items !! i with
      | Some v' => overwritten p' v'
      | None => false
      end
  | _, _ => false
  end.

Definition resolved_name_key (k : string) : bool :=
  String.eqb k "user_display_name" || String.eqb k "user_username".

(** [additive exempt T T']: [T'] is [T] with keys added.  Arrays keep
    their elements in order.  [exempt entries k] is the value that
    replaces the field [k] of the object [entries], if the field is
    replaced: the object of [T'] has that value under [k], whatever was
    there.  Every other key of an object of [T] is a key of the
    corresponding object of [T'], with its value again related; and a
    key of [T'] that is not in [T] is one of the two resolved-name
    keys. *)
Inductive additive (exempt : list (string * json) -> string -> option json)
  : json -> json -> Prop :=
| additive_null : additive exempt JNull JNull
| additive_bool b : additive exempt (JBool b) (JBool b)
| additive_number x : additive exempt (JNumber x) (JNumber x)
| additive_string s : additive exempt (JString s) (JString s)
| additive_array items items' :
    Forall2 (additive exempt) items items' ->
    additive exempt (JArray items) (JArray items')
| additive_object entries entries' :
    (forall k v, get_field k entries = Some v ->
       exempt entries k = None ->
       exists v', get_field k entries' = Some v' /\ additive exempt v v') ->
    (forall k w, exempt entries k = Some w -> get_field k entries' = Some w) ->
    (forall k, is_some (get_field k entries') = true ->
       is_some (get_field k entries) = true \/ resolved_name_key k = true) ->
    additive exempt (JObject entries) (JObject entries').

(** No exemption: the reading of "every key is present and unchanged". *)
Definition never_exempt (entries : list (string * json)) (k : string) : option json :=
  None.

(** The two resolved-name fields of an object that passes the
    enrichment test: they are set to the names the resolver [r] gives
    to the [user] of the object. *)
Definition resolved_names_exempt (r : string -> IdentityRecord)
    (entries : list (string * json)) (k : string) : option json :=
  match user_to_resolve entries with
  | Some u =>
      if String.eqb "user_username" k then Some (JString (username (r u)))
      else if String.eqb "user_display_name" k then Some (JString (displayName (r u)))
      else None
  | None => None
  end.

(** The per-entry step of the second loop, on the value. *)
Definition descend (g : json -> json) (v : json) : json :=
  if typeof_object v then g v else v.

(** The state agrees with [r] on every answer of the resolver, has sent
    the requests [q], and satisfies [I]. *)
Definition agrees_with (users_info : string -> lookup_outcome)
    (I : client_state -> Prop) (r : string -> IdentityRecord)
    (q : list gateway_call) (st : client_state) : Prop :=
  (forall i, resolve users_info st i = r i) /\ requests st = q /\ I st.

(** ** Tool router *)

(** The gateway operation that belongs to a tool, with the arguments
    taken from the argument object. *)
Definition operation (name : string) (args : list (string * json)) : option gateway_call :=
  let arg k := get_field k args in
  if String.eqb name "slack_list_channels" then
    Some (GetChannels (arg "limit") (arg "cursor"))
  else if String.eqb name "slack_post_message" then
    Some (PostMessage (arg "channel_id") (arg "text"))
  else if String.eqb name "slack_reply_to_thread" then
    Some (PostReply (arg "channel_id") (arg "thread_ts") (arg "text"))
  else if String.eqb name "slack_add_reaction" then
    Some (AddReaction (arg "channel_id") (arg "timestamp") (arg "reaction"))
  else if String.eqb name "slack_get_channel_history" then
    Some (GetChannelHistory (arg "channel_id") (arg "limit"))
  else if String.eqb name "slack_get_thread_replies" then
    Some (GetThreadReplies (arg "channel_id") (arg "thread_ts"))
  else if String.eqb name "slack_get_users" then
    Some (GetUsers (arg "limit") (arg "cursor"))
  else if String.eqb name "slack_get_user_profile" then
    Some (GetUserProfile (arg "user_id"))
  else if String.eqb name "slack_search_messages" then
    Some (SearchMessages (arg "query") (arg "count") (arg "cursor")
            (arg "highlight") (arg "sort") (arg "sort_dir"))
  else None.

(** The tools whose gateway method also enriches. *)
Definition enriching (name : string) : bool :=
  String.eqb name "slack_get_channel_history" ||
  String.eqb name "slack_get_thread_replies" ||
  String.eqb name "slack_search_messages".

(** The message of the presence check of each tool. *)
Definition missing_message (name : string) : string :=
  if String.eqb name "slack_post_message" then
    "Missing required arguments: channel_id and text"
  else if String.eqb name "slack_reply_to_thread" then
    "Missing required arguments: channel_id, thread_ts, and text"
  else if String.eqb name "slack_add_reaction" then
    "Missing required arguments: channel_id, timestamp, and reaction"
  else if String.eqb name "slack_get_channel_history" then
    "Missing required argument: channel_id"
  else if String.eqb name "slack_get_thread_replies" then
    "Missing required arguments: channel_id and thread_ts"
  else if String.eqb name "slack_get_user_profile" then
    "Missing required argument: user_id"
  else if String.eqb name "slack_search_messages" then
    "Missing required argument: query"
  else "".

(** The state after one more gateway request. *)
Definition sent (c : gateway_call) (st : client_state) : client_state :=
  {| memo := memo st; requests := requests st ++ [c] |}.

Definition all_present (keys : list string) (args : list (string * json)) : bool :=
  forallb (fun k => truthy_opt (get_field k args)) keys.

(** The reply the specification describes for every tool: the raw
    result through the normalizer, then through the enricher. *)
Definition normalize_then_enrich (users_info : string -> lookup_outcome)
    (data : json) : M tool_result :=
  let* converted := lift (convertTimestampsToISO data) in
  let* enriched := enrichWithUserInfo users_info converted in
  ret (text_result enriched).

(** The reply of the source: the enricher only for the enriching tools. *)
Definition normalize_and_maybe_enrich (users_info : string -> lookup_outcome)
    (name : string) (data : json) : M tool_result :=
  let* converted := lift (convertTimestampsToISO data) in
  if enriching name then
    let* enriched := enrichWithUserInfo users_info converted in
    ret (text_result enriched)
  else ret (text_result converted).

(** ** Tactics and sample data *)

(** Case analysis on a tool of the catalog. *)
Ltac each_tool H :=
  unfold tools in H;
  repeat (apply elem_of_cons in H as [->|H]);
  [..| by apply elem_of_nil in H].

Definition fetch_failed : js_error := JsError "TypeError" "fetch failed".

Definition ada : users_info_data :=
  {| ok := true;
     user := Some {| profile := Some {| display_name := Some "" |};
                     real_name := Some "Ada L";
                     name := Some "ada" |} |}.

(** A workspace in which only [U123] can be looked up. *)
Definition only_U123 (id : string) : lookup_outcome :=
  if String.eqb id "U123" then JsonData ada else FetchRejects fetch_failed.

Definition thread : json :=
  JObject [("ok", JBool true);
           ("messages",
            JArray [JObject [("user", JString "U123"); ("text", JString "hi");
                             ("replies", JArray [JObject [("user", JString "U123")]])]])].

(** What [chat.postMessage] answers. *)
Definition posted : json :=
  JObject [("ok", JBool true); ("ts", JString "1700000000.000100");
           ("message", JObject [("user", JString "U123"); ("text", JString "hi")])].

Definition post_args : list (string * json) :=
  [("channel_id", JString "C1"); ("text", JString "hi")].

Definition history_args : list (string * json) :=
  [("channel_id", JString "C1"); ("limit", JNumber (S754_finite false 5 0))].

(** ** Further properties *)

(** *** Response enricher *)

(** The identifiers [enrich_fuel] hands to [memoizedGetUser], in the
    order of the calls. *)
Fixpoint resolver_calls (r : string -> IdentityRecord) (fuel : nat) (obj : json)
  : list string :=
  match fuel with
  | O => []
  | S fuel' =>
      match obj with
      | JArray items => flat_map (resolver_calls r fuel') items
      | JObject entries =>
          match user_to_resolve entries with Some u => [u] | None => [] end ++
          flat_map (fun kv => if typeof_object (snd kv)
                              then resolver_calls r fuel' (snd kv) else [])
            (with_user_info r entries)
      | _ => []
      end
  end.

(** The state after a sequence of calls of [memoizedGetUser]. *)
Definition call_all (users_info : string -> lookup_outcome) (ids : list string)
    (st : client_state) : client_state :=
  fold_left (fun st id => snd (memoizedGetUser users_info id st)) ids st.

(** Every name a resolver gives to a well-formed identifier is non-empty. *)
Definition names_users (r : string -> IdentityRecord) : Prop :=
  forall u, Regex.matches user_id_re u = true -> displayName (r u) <> "".

(** The cache holds the record of [id]. *)
Definition is_resolved (st : client_state) (id : string) : Prop :=
  exists n r, entries (memo st) !! id = Some (Resolved n r).

(** *** Tool router *)

(** Whether a call passes the checks of the handler: the tool is in the
    catalog and every argument its schema requires is present and
    truthy. *)
Definition accepted (name : string) (args : list (string * json)) : bool :=
  existsb (fun tool => String.eqb (tool_name tool) name &&
                       all_present (required tool) args) tools.

(** The [properties] of the input schema of each tool. *)
Definition parameters (name : string) : list string :=
  if String.eqb name "slack_list_channels" then ["limit"; "cursor"]
  else if String.eqb name "slack_post_message" then ["channel_id"; "text"]
  else if String.eqb name "slack_reply_to_thread" then ["channel_id"; "thread_ts"; "text"]
  else if String.eqb name "slack_add_reaction" then ["channel_id"; "timestamp"; "reaction"]
  else if String.eqb name "slack_get_channel_history" then ["channel_id"; "limit"]
  else if String.eqb name "slack_get_thread_replies" then ["channel_id"; "thread_ts"]
  else if String.eqb name "slack_get_users" then ["cursor"; "limit"]
  else if String.eqb name "slack_get_user_profile" then ["user_id"]
  else if String.eqb name "slack_search_messages" then
    ["query"; "count"; "cursor"; "highlight"; "sort"; "sort_dir"]
  else [].

(** *** Requests *)

(** The value of a parameter of a [URLSearchParams] ([get]). *)
Fixpoint search_get (k : string) (params : list (string * string)) : option string :=
  match params with
  | [] => None
  | (k', v) :: rest => if String.eqb k' k then Some v else search_get k rest
  end.

(** [A-Z0-9] *)
Definition upper_alnum (c : ascii) : bool :=
  Regex.in_range "A" "Z" c || Regex.in_range "0" "9" c.

(** The parameter [k] of a request is capped: it is the string of a
    number that is [default] when no value is given, never above [cap]
    (a [NaN] apart), and the given value when that is within the cap. *)
Definition capped (Number_toString : number -> string) (k : string)
    (cap default : number) (given : option json) (req : fetch_call) : Prop :=
  exists x,
    search_get k (search req) = Some (Number_toString x) /\
    (given = None -> x = default) /\
    (is_nan x = true \/ number_le x cap = true) /\
    (forall y, given = Some (JNumber y) -> number_le y cap = true -> x = y).

(** An environment variable that is set and not empty. *)
Definition is_set (v : option string) : bool :=
  match v with Some s => negb (String.eqb s "") | None => false end.

(** The optional parameter [k] of a request: sent when the argument is
    a non-empty string, left out when it is absent or falsy. *)
Definition optional (k : string) (given : option json) (req : fetch_call) : Prop :=
  search_get k (search req) =
    match given with
    | Some (JString s) => if String.eqb s "" then None else Some s
    | _ => None
    end.

(** *** Sample data *)

(** [Number.prototype.toString] on the integers below [2^53]; the
    sample calls use no other numbers. *)
Definition integer_toString (x : number) : string :=
  match x with
  | S754_zero _ => "0"
  | S754_finite s m e =>
      (if s then "-" else "") +:+
      pretty (Z.to_N (JsNumber.truncate m e))
  | S754_infinity s => if s then "-Infinity" else "Infinity"
  | S754_nan => "NaN"
  end.

Definition sample_env (k : string) : option string :=
  if String.eqb k "SLACK_TOKEN" then Some "xoxp-1"
  else if String.eqb k "SLACK_BOT_TOKEN" then Some "xoxb-2"
  else if String.eqb k "SLACK_TEAM_ID" then Some "T01234567"
  else None.

(* ===================================================================== *)
(** * Properties: proofs                                                  *)
(* ===================================================================== *)

(** ** Regular expressions *)

Lemma string_forall_app p a b :
  string_forall p (a +:+ b) = string_forall p a && string_forall p b.
Proof.
  induction a as [|c a IH]; simpl; [done|]. by rewrite IH, andb_assoc.
Qed.

Lemma nullable_lang r : Regex.nullable r = true -> Regex.lang r "".
Proof.
  induction r; simpl; intros H; try discriminate.
  - constructor.
  - apply andb_true_iff in H as [H1 H2].
    change "" with ("" +:+ ""). constructor; auto.
  - apply orb_true_iff in H as [H|H]; [apply Regex.lang_alt_l | apply Regex.lang_alt_r]; auto.
  - constructor.
Qed.

Lemma deriv_lang r : forall c s, Regex.lang (Regex.deriv c r) s -> Regex.lang r (String c s).
Proof.
  induction r; simpl; intros c s H.
  - inversion H.
  - inversion H.
  - destruct (p c) eqn:Hp; inversion H; subst. by constructor.
  - inversion H as [| |? ? ? ? | ? ? ? H1 | ? ? ? H1 | |]; subst.
    + inversion H1; subst.
      change (String c (s1 +:+ s2)) with (String c s1 +:+ s2).
      constructor; auto.
    + destruct (Regex.nullable r1) eqn:Hn; [|inversion H1].
      change (String c s) with ("" +:+ String c s).
      constructor; [by apply nullable_lang | auto].
  - inversion H; subst; [apply Regex.lang_alt_l | apply Regex.lang_alt_r]; auto.
  - inversion H; subst.
    change (String c (s1 +:+ s2)) with (String c s1 +:+ s2).
    apply Regex.lang_star_cons; auto.
Qed.

Lemma matches_lang r s : Regex.matches r s = true -> Regex.lang r s.
Proof.
  revert r. induction s as [|c s IH]; simpl; intros r H.
  - by apply nullable_lang.
  - by apply deriv_lang, IH.
Qed.

Lemma string_forall_impl (p q : ascii -> bool) s :
  (forall c, p c = true -> q c = true) ->
  string_forall p s = true -> string_forall q s = true.
Proof.
  intros Hpq. induction s as [|c s IH]; simpl; [done|].
  rewrite !andb_true_iff. intros [? ?]; auto.
Qed.

Lemma lang_alphabet r s : Regex.lang r s -> string_forall (Regex.alphabet r) s = true.
Proof.
  induction 1 as [ | p c Hp | r1 r2 s1 s2 _ IH1 _ IH2 | r1 r2 s _ IH | r1 r2 s _ IH
                 | r | r s1 s2 _ IH1 _ IH2 ]; simpl in *.
  - done.
  - by rewrite Hp.
  - rewrite string_forall_app, andb_true_iff; split.
    + eapply string_forall_impl; [|exact IH1]. intros c ->. done.
    + eapply string_forall_impl; [|exact IH2]. intros c ->. apply orb_true_r.
  - eapply string_forall_impl; [|exact IH]. intros c ->. done.
  - eapply string_forall_impl; [|exact IH]. intros c ->. apply orb_true_r.
  - done.
  - rewrite string_forall_app, andb_true_iff; split.
    + eapply string_forall_impl; [|exact IH1]. intros c Hc; exact Hc.
    + exact IH2.
Qed.

Lemma matches_alphabet r s :
  Regex.matches r s = true -> string_forall (Regex.alphabet r) s = true.
Proof. intros H. by apply lang_alphabet, matches_lang. Qed.

Lemma append_empty s1 s2 : s1 +:+ s2 = "" -> s1 = "" /\ s2 = "".
Proof. by destruct s1. Qed.

Lemma append_cons s1 s2 c s :
  s1 +:+ s2 = String c s ->
  (s1 = "" /\ s2 = String c s) \/ exists s1', s1 = String c s1' /\ s = s1' +:+ s2.
Proof.
  destruct s1 as [|c1 s1]; simpl; [by left|].
  intros [= -> <-]. right. eauto.
Qed.

Lemma lang_nullable r s : Regex.lang r s -> s = "" -> Regex.nullable r = true.
Proof.
  induction 1 as [ | p c Hp | r1 r2 s1 s2 _ IH1 _ IH2 | r1 r2 s _ IH | r1 r2 s _ IH
                 | r | r s1 s2 _ IH1 _ IH2 ]; simpl; intros Hs; try done.
  - apply append_empty in Hs as [-> ->]. by rewrite IH1, IH2.
  - by rewrite IH.
  - rewrite IH by done. apply orb_true_r.
Qed.

Lemma lang_deriv r s0 :
  Regex.lang r s0 -> forall c s, s0 = String c s -> Regex.lang (Regex.deriv c r) s.
Proof.
  induction 1 as [ | p c0 Hp | r1 r2 s1 s2 H1 IH1 H2 IH2 | r1 r2 s0 _ IH | r1 r2 s0 _ IH
                 | r | r s1 s2 H1 IH1 H2 IH2 ]; intros c s Hs; simpl; try done.
  - injection Hs as -> <-. rewrite Hp. constructor.
  - apply append_cons in Hs as [[-> ->]|(s1' & -> & ->)].
    + apply Regex.lang_alt_r.
      rewrite (lang_nullable _ _ H1 eq_refl). by apply IH2.
    + apply Regex.lang_alt_l. constructor; [by apply IH1 | done].
  - apply Regex.lang_alt_l. by apply IH.
  - apply Regex.lang_alt_r. by apply IH.
  - apply append_cons in Hs as [[-> ->]|(s1' & -> & ->)].
    + by apply IH2.
    + constructor; [by apply IH1 | done].
Qed.

Lemma lang_matches r s : Regex.lang r s -> Regex.matches r s = true.
Proof.
  revert r. induction s as [|c s IH]; simpl; intros r H.
  - by apply (lang_nullable r "").
  - apply IH. by apply (lang_deriv r (String c s)).
Qed.

(** The matcher decides the language of the pattern. *)
Lemma matches_iff_lang r s : Regex.matches r s = true <-> Regex.lang r s.
Proof. split; [apply matches_lang | apply lang_matches]. Qed.

(** An ISO string ends in [Z], which the numeric pattern cannot read. *)
Lemma iso_not_numeric t : Regex.matches numeric_string_re (JsDate.iso_of_time t) = false.
Proof.
  destruct (Regex.matches _ _) eqn:H; [|done].
  apply matches_alphabet in H. unfold JsDate.iso_of_time in H.
  rewrite !string_forall_app in H.
  replace (string_forall (Regex.alphabet numeric_string_re) "Z") with false in H
    by reflexivity.
  rewrite !andb_false_r in H. discriminate H.
Qed.

Lemma timestamp_to_iso_not_numeric s iso :
  timestamp_to_iso s = Returns iso -> is_numeric_string (JString iso) = false.
Proof.
  unfold timestamp_to_iso, JsDate.toISOString.
  destruct (JsDate.TimeClip _); [|done]. intros [= <-]. apply iso_not_numeric.
Qed.

(** ** Dates *)

(** [YearFromDay] is the year of the day: the largest year that starts
    on or before it. *)
Lemma YearFromDay_spec d :
  (JsDate.DayFromYear (JsDate.YearFromDay d) <= d
   < JsDate.DayFromYear (JsDate.YearFromDay d + 1))%Z.
Proof.
  unfold JsDate.YearFromDay, JsDate.DayFromYear.
  repeat match goal with |- context [(?a <=? ?b)%Z] => destruct (Z.leb_spec a b) end;
    Z.div_mod_to_equations; lia.
Qed.

Lemma DaysInYear_cases y : (JsDate.DaysInYear y = 365 \/ JsDate.DaysInYear y = 366)%Z.
Proof.
  unfold JsDate.DaysInYear, JsDate.DayFromYear. Z.div_mod_to_equations. lia.
Qed.

Lemma time_within_day t :
  (JsDate.HourFromTime t * 3600000 + JsDate.MinFromTime t * 60000 +
   JsDate.SecFromTime t * 1000 + JsDate.msFromTime t = JsDate.TimeWithinDay t)%Z.
Proof.
  unfold JsDate.HourFromTime, JsDate.MinFromTime, JsDate.SecFromTime,
    JsDate.msFromTime, JsDate.TimeWithinDay, JsDate.msPerDay.
  Z.div_mod_to_equations. lia.
Qed.

(** The fields [iso_of_time] prints are a calendar date, and they denote
    the time value they were taken from. *)
Lemma iso_fields_denote t :
  instant_of (JsDate.YearFromTime t) (JsDate.MonthFromTime t) (JsDate.DateFromTime t)
    (JsDate.HourFromTime t) (JsDate.MinFromTime t) (JsDate.SecFromTime t)
    (JsDate.msFromTime t) = t /\
  (0 <= JsDate.MonthFromTime t <= 11 /\ 1 <= JsDate.DateFromTime t <= 31)%Z.
Proof.
  unfold instant_of.
  rewrite <- !Z.add_assoc, (Z.add_assoc (JsDate.HourFromTime t * _)),
    (Z.add_assoc (JsDate.HourFromTime t * _ + _)), time_within_day.
  pose proof (YearFromDay_spec (JsDate.Day t)) as Hy.
  pose proof (DaysInYear_cases (JsDate.YearFromTime t)) as Hl.
  unfold JsDate.DateFromTime, JsDate.MonthFromTime, JsDate.InLeapYear,
    JsDate.DayWithinYear.
  fold (JsDate.YearFromTime t) in Hy.
  unfold JsDate.DaysInYear in *.
  set (y := JsDate.YearFromTime t) in *.
  set (d := JsDate.Day t) in *.
  assert (t = d * JsDate.msPerDay + JsDate.TimeWithinDay t)%Z as Ht.
  { unfold d, JsDate.Day, JsDate.TimeWithinDay, JsDate.msPerDay.
    Z.div_mod_to_equations. lia. }
  set (a := JsDate.DayFromYear y) in *. set (b := JsDate.DayFromYear (y + 1)) in *.
  repeat match goal with |- context [(?u <? ?v)%Z] => destruct (Z.ltb_spec u v) end;
    cbn [first_day_of_month]; lia.
Qed.

(** ** Timestamp normalizer *)

Lemma map_completion_Returns {A B} (f : A -> completion B) l l' :
  map_completion f l = Returns l' <-> Forall2 (fun x y => f x = Returns y) l l'.
Proof.
  revert l'. induction l as [|x l IH]; simpl; intros l'.
  - split; [intros [= <-]; constructor | by inversion 1].
  - destruct (f x) as [y|e] eqn:Hx; simpl.
    + destruct (map_completion f l) as [r|e] eqn:Hl; simpl.
      * split.
        -- intros [= <-]. constructor; [done | by apply IH].
        -- inversion 1 as [|? y' ? r' Hy Hr]; subst.
           apply IH in Hr. congruence.
      * split; [done|]. inversion 1 as [|? y' ? r' Hy Hr]; subst.
        apply IH in Hr. discriminate.
    + split; [done|]. inversion 1; congruence.
Qed.

Lemma convert_entry_converted recurse key s :
  is_timestamp_key key = true ->
  Regex.matches numeric_string_re s = true ->
  convert_entry recurse key (JString s) = completion_map JString (timestamp_to_iso s).
Proof. intros Hk Hs. unfold convert_entry. simpl. by rewrite Hk, Hs. Qed.

Lemma convert_entry_kept recurse key value :
  is_timestamp_key key && is_numeric_string value = false ->
  convert_entry recurse key value =
    if typeof_object value then recurse value else Returns value.
Proof. intros H. unfold convert_entry. by rewrite H. Qed.

(** The two ways an entry is treated. *)
Lemma entry_cases key value :
  (exists s, value = JString s /\ is_timestamp_key key = true /\
             Regex.matches numeric_string_re s = true) \/
  is_timestamp_key key && is_numeric_string value = false.
Proof.
  destruct (is_timestamp_key key && is_numeric_string value) eqn:H; [left|by right].
  apply andb_true_iff in H as [Hk Hv].
  destruct value; try discriminate. eauto.
Qed.

Lemma typeof_object_convert v v' :
  typeof_object v = true -> convertTimestampsToISO v = Returns v' ->
  typeof_object v' = true.
Proof.
  destruct v; try discriminate; simpl; intros _.
  - by intros [= <-].
  - destruct (map_completion _ _); simpl; [by intros [= <-] | done].
  - destruct (map_completion _ _); simpl; [by intros [= <-] | done].
Qed.

Lemma not_numeric_of_typeof_object v :
  typeof_object v = true -> is_numeric_string v = false.
Proof. by destruct v. Qed.

(** A second run finds nothing left to convert. *)
Lemma convert_fixed T :
  forall T', convertTimestampsToISO T = Returns T' ->
             convertTimestampsToISO T' = Returns T'.
Proof.
  induction T as [ | b | x | s | items IH | entries IH ] using json_nested_ind;
    simpl; intros T' H; try (injection H as <-; reflexivity).
  - destruct (map_completion _ items) as [items'|] eqn:Hm; [|done].
    injection H as <-. simpl.
    apply map_completion_Returns in Hm.
    assert (map_completion convertTimestampsToISO items' = Returns items') as ->; [|done].
    apply map_completion_Returns.
    induction Hm as [|x y l l' Hxy Hl IHl]; [constructor|].
    inversion IH; subst. constructor; auto.
  - destruct (map_completion _ entries) as [entries'|] eqn:Hm; [|done].
    injection H as <-. simpl.
    apply map_completion_Returns in Hm.
    match goal with |- completion_map _ ?m = _ => assert (m = Returns entries') as -> end;
      [|done].
    apply map_completion_Returns.
    induction Hm as [|[k v] [k' v'] l l' Hxy Hl IHl]; [constructor|].
    inversion IH as [|? ? IHv IHrest]; subst. constructor; [|auto].
    simpl in *.
    destruct (convert_entry _ k v) as [w|] eqn:Hw; [|done].
    injection Hxy as <- <-.
    destruct (entry_cases k v) as [(s & -> & Hk & Hs)|Hkept].
    + rewrite convert_entry_converted in Hw by done.
      destruct (timestamp_to_iso s) as [iso|] eqn:Hiso; [|done].
      injection Hw as <-.
      rewrite convert_entry_kept; [done|].
      by rewrite (timestamp_to_iso_not_numeric _ _ Hiso), andb_false_r.
    + rewrite convert_entry_kept in Hw by done.
      destruct (typeof_object v) eqn:Hobj.
      * rewrite convert_entry_kept
          by (rewrite (not_numeric_of_typeof_object w), andb_false_r;
              eauto using typeof_object_convert).
        rewrite (typeof_object_convert _ _ Hobj Hw).
        by rewrite (IHv _ Hw).
      * injection Hw as <-. by rewrite convert_entry_kept, Hobj.
Qed.

Lemma convert_in_range T :
  timestamps_in_range T = true ->
  exists T', convertTimestampsToISO T = Returns T' /\ normalized_as T T'.
Proof.
  induction T as [ | b | x | s | items IH | entries IH ] using json_nested_ind;
    simpl; intros Hr; try (eexists; split; [reflexivity | constructor]).
  - assert (exists items', map_completion convertTimestampsToISO items = Returns items' /\
                           Forall2 normalized_as items items') as (items' & -> & HF).
    { induction IH as [|x l Hx _ IHl]; simpl in *; [by eexists; split; [|constructor]|].
      apply andb_true_iff in Hr as [Hx' Hl'].
      destruct (Hx Hx') as (x' & -> & ?). destruct (IHl Hl') as (l' & -> & ?).
      simpl. eexists; split; [reflexivity | by constructor]. }
    simpl. eexists; split; [reflexivity | by constructor].
  - match goal with |- context [map_completion ?f entries] =>
      assert (exists entries', map_completion f entries = Returns entries' /\
                Forall2 (entry_normalized normalized_as) entries entries')
        as (entries' & -> & HF) end.
    { induction IH as [|[k v] l Hv _ IHl]; simpl in *; [by eexists; split; [|constructor]|].
      apply andb_true_iff in Hr as [Hv' Hl'].
      destruct (IHl Hl') as (l' & -> & ?).
      destruct (entry_cases k v) as [(s & -> & Hk & Hs)|Hkept].
      - rewrite convert_entry_converted by done.
        simpl in Hv'. rewrite Hk, Hs in Hv'. simpl in Hv'.
        destruct (timestamp_to_iso s) as [iso|] eqn:Hiso; [|done].
        simpl. eexists; split; [reflexivity|]. constructor; [|done].
        by apply entry_converted.
      - rewrite convert_entry_kept by done. rewrite Hkept in Hv'.
        destruct (Hv Hv') as (v' & Hcv & Hn).
        destruct (typeof_object v) eqn:Hobj.
        + rewrite Hcv. simpl. eexists; split; [reflexivity|].
          constructor; [|done]. by apply entry_kept.
        + simpl. eexists; split; [reflexivity|].
          constructor; [|done]. apply entry_kept; [done|].
          destruct v; try discriminate; constructor. }
    simpl. eexists; split; [reflexivity | by constructor].
Qed.

Lemma convert_out_of_range T :
  timestamps_in_range T = false ->
  convertTimestampsToISO T = Throws JsDate.invalid_time_value.
Proof.
  induction T as [ | b | x | s | items IH | entries IH ] using json_nested_ind;
    simpl; intros Hr; try discriminate.
  - assert (map_completion convertTimestampsToISO items =
              Throws JsDate.invalid_time_value) as ->; [|done].
    induction IH as [|x l Hx _ IHl]; simpl in *; [done|].
    destruct (timestamps_in_range x) eqn:Hx'.
    + destruct (convert_in_range x Hx') as (x' & -> & _). simpl.
      by rewrite IHl.
    + by rewrite Hx.
  - match goal with |- completion_map _ ?m = _ =>
      assert (m = Throws JsDate.invalid_time_value) as -> end; [|done].
    induction IH as [|[k v] l Hv _ IHl]; simpl in *; [done|].
    destruct (entry_cases k v) as [(s & -> & Hk & Hs)|Hkept].
    + rewrite convert_entry_converted by done.
      unfold is_numeric_string in Hr. rewrite Hk, Hs in Hr. simpl in Hr.
      unfold timestamp_to_iso, JsDate.toISOString in *.
      destruct (JsDate.TimeClip _); simpl in *; [by rewrite IHl | done].
    + rewrite convert_entry_kept by done. rewrite Hkept in Hr.
      destruct (timestamps_in_range v) eqn:Hv'.
      * destruct (convert_in_range v Hv') as (v' & -> & _).
        destruct (typeof_object v); simpl; by rewrite IHl.
      * rewrite (Hv eq_refl).
        destruct (typeof_object v) eqn:Hobj; [done|].
        destruct v; discriminate.
Qed.

(** [normalized_as] leaves no choice: it describes one result. *)
Lemma Forall2_functional {A B} (R : A -> B -> Prop) l :
  Forall (fun x => forall y1 y2, R x y1 -> R x y2 -> y1 = y2) l ->
  forall l1 l2, Forall2 R l l1 -> Forall2 R l l2 -> l1 = l2.
Proof.
  induction 1 as [|x l Hx _ IH]; intros l1 l2 H1 H2;
    inversion H1; inversion H2; subst; [done|].
  f_equal; eauto.
Qed.

Lemma normalized_as_functional T :
  forall T1 T2, normalized_as T T1 -> normalized_as T T2 -> T1 = T2.
Proof.
  induction T as [ | b | x | s | items IH | entries IH ] using json_nested_ind;
    intros T1 T2 H1 H2; inversion H1; inversion H2; subst; try done.
  - f_equal. by eapply Forall2_functional.
  - f_equal. eapply Forall2_functional; [|done..].
    eapply Forall_impl; [exact IH|]. simpl.
    intros [k v] IHv y1 y2 Hy1 Hy2.
    inversion Hy1 as [? s iso Hk Hs Hiso|? ? v1 Hc Hv]; subst;
      inversion Hy2 as [? s2 iso2 Hk2 Hs2 Hiso2|? ? v2 Hc2 Hv2]; subst.
    + congruence.
    + simpl in Hc2. rewrite Hk, Hs in Hc2. discriminate.
    + simpl in Hc. rewrite Hk2, Hs2 in Hc. discriminate.
    + f_equal. simpl in IHv. eauto.
Qed.

Example normalize_fractional_timestamp :
  convertTimestampsToISO (JObject [("ts", JString "1700000000.123456")]) =
    Returns (JObject [("ts", JString "2023-11-14T22:13:20.123Z")]).
Proof. reflexivity. Qed.

Example normalize_keeps_non_numeric :
  convertTimestampsToISO (JObject [("ts", JString "not-a-number"); ("n", JNull)]) =
    Returns (JObject [("ts", JString "not-a-number"); ("n", JNull)]).
Proof. reflexivity. Qed.

(** The product is the one of binary64: [1.005 * 1000] is just below
    [1005]. *)
Example normalize_truncates_double :
  convertTimestampsToISO (JObject [("ts", JString "1.005")]) =
    Returns (JObject [("ts", JString "1970-01-01T00:00:01.004Z")]).
Proof. reflexivity. Qed.

(** ** Identity resolver *)

Lemma getUser_returns userId outcome : exists r, getUser userId outcome = Returns r.
Proof.
  unfold getUser. destruct outcome as [e|e| |data]; simpl; eauto.
  destruct (ok data), (user data); simpl; eauto.
Qed.

Lemma getUser_failed userId outcome :
  lookup_failed outcome = true -> getUser userId outcome = Returns (degraded userId).
Proof.
  unfold getUser. destruct outcome as [e|e| |data]; simpl; try done.
  by destruct (ok data), (user data).
Qed.

Lemma lookups_for_app id st key :
  length (filter (fun id' => id' = id) (issued st ++ [key])) =
  lookups_for id st + (if decide (key = id) then 1 else 0).
Proof.
  unfold lookups_for. rewrite filter_app, length_app. f_equal.
  rewrite filter_cons, filter_nil. by destruct (decide (key = id)).
Qed.

Lemma memo_wf_init : memo_wf memo_init.
Proof. intros id. simpl. by rewrite lookup_empty. Qed.

Lemma memo_call_wf key st :
  memo_wf st -> memo_wf (snd (memo_call key st)).
Proof.
  intros Hwf. unfold memo_call.
  destruct (entries st !! key) as [[n|n r]|] eqn:Hkey; simpl; try done.
  intros id. simpl. destruct (decide (key = id)) as [->|Hne].
  - rewrite lookup_insert_eq. simpl. split.
    + rewrite lookup_app_r by lia. by rewrite Nat.sub_diag.
    + pose proof (Hwf id) as H. rewrite Hkey in H.
      unfold lookups_for at 1. simpl. rewrite lookups_for_app, H.
      by rewrite decide_True.
  - rewrite lookup_insert_ne by done.
    pose proof (Hwf id) as H.
    unfold lookups_for at 1 2. simpl. rewrite lookups_for_app.
    rewrite decide_False by done. rewrite Nat.add_0_r.
    destruct (entries st !! id) as [e|]; [|done].
    destruct H as [H1 H2]. split; [|done].
    rewrite lookup_app_l; [done|]. by eapply lookup_lt_Some.
Qed.

Lemma memo_settle_wf key r st :
  memo_wf st -> memo_wf (memo_settle key (Returns r) st).
Proof.
  intros Hwf. unfold memo_settle.
  destruct (entries st !! key) as [[n|n r']|] eqn:Hkey; try done.
  intros id. simpl. destruct (decide (key = id)) as [->|Hne].
  - rewrite lookup_insert_eq. simpl.
    pose proof (Hwf id) as H. by rewrite Hkey in H.
  - rewrite lookup_insert_ne by done. apply (Hwf id).
Qed.

Lemma memo_call_consistent key st x :
  answer_consistent st x -> answer_consistent (snd (memo_call key st)) x.
Proof.
  intros (e & He & Ht & Hv). unfold memo_call.
  destruct (entries st !! key) as [[n|n r]|] eqn:Hkey; simpl;
    try (exists e; done).
  exists e. split; [|done]. simpl. rewrite lookup_insert_ne; [done|].
  intros ->. congruence.
Qed.

Lemma memo_settle_consistent key r st x :
  answer_consistent st x -> answer_consistent (memo_settle key (Returns r) st) x.
Proof.
  intros (e & He & Ht & Hv). unfold memo_settle.
  destruct (entries st !! key) as [[n|n r']|] eqn:Hkey; try (exists e; done).
  destruct (decide (key = fst x)) as [->|Hne].
  - exists (Resolved n r). simpl. rewrite lookup_insert_eq.
    assert (e = InFlight n) as -> by congruence. simpl in *.
    split; [done|]. split; [done|].
    intros r0 Hr0. by specialize (Hv r0 Hr0).
  - exists e. simpl. by rewrite lookup_insert_ne.
Qed.

Lemma memo_call_answer key st :
  answer_consistent (snd (memo_call key st)) (key, fst (memo_call key st)).
Proof.
  unfold memo_call, answer_consistent.
  destruct (entries st !! key) as [[n|n r]|] eqn:Hkey; simpl.
  - exists (InFlight n). by rewrite Hkey.
  - exists (Resolved n r). rewrite Hkey. repeat split. by intros ? [= <-].
  - exists (InFlight (length (issued st))). by rewrite lookup_insert_eq.
Qed.

Lemma memo_call_lookups key st id :
  lookups_for id (snd (memo_call key st)) =
  lookups_for id st +
    (if decide (key = id /\ entries st !! key = None) then 1 else 0).
Proof.
  unfold memo_call.
  destruct (entries st !! key) as [[n|n r]|] eqn:Hkey; simpl.
  - rewrite decide_False by (by intros [_ ?]). lia.
  - rewrite decide_False by (by intros [_ ?]). lia.
  - unfold lookups_for at 1. simpl. rewrite lookups_for_app.
    destruct (decide (key = id)); [by rewrite decide_True | rewrite decide_False; [done|]].
    by intros [? _].
Qed.

Lemma memo_call_entry key st id :
  entries (snd (memo_call key st)) !! id = None <->
  entries st !! id = None /\ key <> id.
Proof.
  unfold memo_call.
  destruct (entries st !! key) as [[n|n r]|] eqn:Hkey; simpl.
  - split; [|by intros [? _]]. intros H; split; [done|]. intros ->. congruence.
  - split; [|by intros [? _]]. intros H; split; [done|]. intros ->. congruence.
  - destruct (decide (key = id)) as [->|Hne].
    + rewrite lookup_insert_eq. split; [done | by intros [_ ?]].
    + rewrite lookup_insert_ne by done. split; [done | by intros [? _]].
Qed.

Lemma memo_settle_entry key r st id :
  entries (memo_settle key (Returns r) st) !! id = None <-> entries st !! id = None.
Proof.
  unfold memo_settle.
  destruct (entries st !! key) as [[n|n r']|] eqn:Hkey; try done.
  simpl. destruct (decide (key = id)) as [->|Hne].
  - rewrite lookup_insert_eq, Hkey. done.
  - by rewrite lookup_insert_ne.
Qed.

Lemma memo_settle_lookups key c st id :
  lookups_for id (memo_settle key c st) = lookups_for id st.
Proof.
  unfold memo_settle.
  destruct (entries st !! key) as [[n|n r']|]; try done. by destruct c.
Qed.

(** What a run from a well-formed state preserves and produces. *)
Lemma resolver_run_invariant trace : forall st id,
  memo_wf st ->
  memo_wf (snd (resolver_run trace st)) /\
  (forall x, answer_consistent st x -> answer_consistent (snd (resolver_run trace st)) x) /\
  Forall (answer_consistent (snd (resolver_run trace st))) (fst (resolver_run trace st)) /\
  lookups_for id (snd (resolver_run trace st)) =
    lookups_for id st +
      (if decide (entries st !! id = None) then
         if requested id trace then 1 else 0
       else 0).
Proof.
  induction trace as [|ev trace IH]; intros st id Hwf.
  - simpl. repeat split; [done..|constructor|]. destruct (decide _); lia.
  - simpl. destruct ev as [key|key outcome]; simpl.
    + destruct (memo_call key st) as [a st1] eqn:Hcall.
      assert (st1 = snd (memo_call key st)) as Hst1 by (by rewrite Hcall).
      assert (a = fst (memo_call key st)) as Ha by (by rewrite Hcall).
      assert (memo_wf st1) as Hwf1 by (subst st1; by apply memo_call_wf).
      destruct (IH st1 id Hwf1) as (IH1 & IH2 & IH3 & IH4).
      destruct (resolver_run trace st1) as [b st2]. simpl in *.
      split; [done|]. split; [|split].
      * intros x Hx. apply IH2. subst st1. by apply memo_call_consistent.
      * constructor; [|done]. apply IH2. subst st1 a. apply memo_call_answer.
      * rewrite IH4. subst st1. rewrite memo_call_lookups.
        pose proof (memo_call_entry key st id) as He.
        destruct (String.eqb_spec key id) as [->|Hne].
        -- destruct (decide (entries st !! id = None)) as [Hn|Hn].
           ++ rewrite decide_True by done.
              rewrite decide_False by (rewrite He; by intros [_ ?]). simpl. lia.
           ++ rewrite decide_False by (by intros [_ ?]).
              rewrite decide_False by (rewrite He; by intros [? _]). lia.
        -- rewrite decide_False by (by intros [? _]). simpl.
           destruct (decide (entries st !! id = None)) as [Hn|Hn].
           ++ rewrite decide_True by (by rewrite He). lia.
           ++ rewrite decide_False by (rewrite He; by intros [? _]). lia.
    + destruct (getUser_returns key outcome) as [r ->].
      assert (memo_wf (memo_settle key (Returns r) st)) as Hwf1
        by (by apply memo_settle_wf).
      destruct (IH _ id Hwf1) as (IH1 & IH2 & IH3 & IH4).
      destruct (resolver_run trace _) as [b st2]. simpl in *.
      split; [done|]. split; [|split]; [|done|].
      * intros x Hx. apply IH2. by apply memo_settle_consistent.
      * rewrite IH4, memo_settle_lookups.
        pose proof (memo_settle_entry key r st id) as He.
        destruct (decide (entries st !! id = None)) as [Hn|Hn].
        -- by rewrite decide_True by (by rewrite He).
        -- by rewrite decide_False by (by rewrite He).
Qed.

(** *** What the callers get *)

Lemma resolver_run_app a b st :
  resolver_run (a ++ b) st =
    (fst (resolver_run a st) ++ fst (resolver_run b (snd (resolver_run a st))),
     snd (resolver_run b (snd (resolver_run a st)))).
Proof.
  revert st. induction a as [|ev a IH]; intros st; simpl.
  - by destruct (resolver_run b st).
  - destruct (resolver_step ev st) as [x st1]. rewrite IH.
    destruct (resolver_run a st1) as [y st2]. simpl.
    by rewrite app_assoc.
Qed.

Lemma resolver_run_answers trace : forall st,
  map fst (fst (resolver_run trace st)) = request_ids trace.
Proof.
  induction trace as [|ev trace IH]; intros st; [done|].
  simpl. destruct ev as [key|key outcome]; simpl.
  - destruct (memo_call key st) as [a st1].
    specialize (IH st1). destruct (resolver_run trace st1) as [b st2].
    simpl in *. by rewrite IH.
  - specialize (IH (memo_settle key (getUser key outcome) st)).
    destruct (resolver_run trace _) as [b st2]. simpl in *. done.
Qed.

(** While the lookup of [id] is in flight, every request for [id] is
    answered with its ticket and no value. *)
Lemma resolver_run_in_flight id n trace : forall st,
  entries st !! id = Some (InFlight n) ->
  responded id trace = false ->
  entries (snd (resolver_run trace st)) !! id = Some (InFlight n) /\
  forall a, (id, a) ∈ fst (resolver_run trace st) ->
    a = {| observed := n; available := None |}.
Proof.
  induction trace as [|ev trace IH]; intros st Hid Hresp.
  - simpl. split; [done|]. intros a Ha. by apply elem_of_nil in Ha.
  - simpl in Hresp. apply orb_false_iff in Hresp as [Hev Hresp].
    simpl. destruct ev as [key|key outcome]; simpl.
    + assert (entries (snd (memo_call key st)) !! id = Some (InFlight n) /\
              (key = id -> fst (memo_call key st) =
                             {| observed := n; available := None |})) as [H1 H2].
      { unfold memo_call. destruct (entries st !! key) as [[m|m r]|] eqn:Hkey; simpl.
        - split; [done|]. intros ->. congruence.
        - split; [done|]. intros ->. congruence.
        - split; [|intros ->; congruence].
          rewrite lookup_insert_ne; [done|]. intros ->. congruence. }
      destruct (memo_call key st) as [x st1]. simpl in H1, H2.
      destruct (IH st1 H1 Hresp) as [I1 I2].
      destruct (resolver_run trace st1) as [b st2]. simpl in *.
      split; [done|]. intros a Ha. apply elem_of_cons in Ha as [Ha|Ha]; [|by apply I2].
      injection Ha as -> ->. by apply H2.
    + assert (key <> id) as Hne by (by apply String.eqb_neq).
      assert (entries (memo_settle key (getUser key outcome) st) !! id =
              Some (InFlight n)) as H1.
      { unfold memo_settle. destruct (entries st !! key) as [[m|m r]|]; try done.
        destruct (getUser key outcome); simpl.
        - by rewrite lookup_insert_ne.
        - by rewrite lookup_delete_ne. }
      destruct (IH _ H1 Hresp) as [I1 I2].
      destruct (resolver_run trace _) as [b st2]. simpl in *. done.
Qed.

(** The first request for [id] starts the lookup. *)
Lemma resolver_run_starts id trace : forall st,
  entries st !! id = None ->
  requested id trace = true ->
  responded id trace = false ->
  exists n,
    entries (snd (resolver_run trace st)) !! id = Some (InFlight n) /\
    forall a, (id, a) ∈ fst (resolver_run trace st) ->
      a = {| observed := n; available := None |}.
Proof.
  induction trace as [|ev trace IH]; intros st Hid Hreq Hresp; [done|].
  simpl in Hreq, Hresp. apply orb_false_iff in Hresp as [Hev Hresp].
  simpl. destruct ev as [key|key outcome]; simpl.
  - destruct (String.eqb_spec key id) as [->|Hne].
    + pose proof (resolver_run_in_flight id (length (issued st)) trace
                    (snd (memo_call id st))) as Hfl.
      unfold memo_call in *. rewrite Hid in *. simpl in Hfl.
      rewrite lookup_insert_eq in Hfl. destruct (Hfl eq_refl Hresp) as [I1 I2].
      destruct (resolver_run trace _) as [b st2]. simpl in *.
      exists (length (issued st)). split; [done|].
      intros a Ha. apply elem_of_cons in Ha as [Ha|Ha]; [|by apply I2].
      by injection Ha as ->.
    + simpl in Hreq.
      assert (entries (snd (memo_call key st)) !! id = None) as H1
        by (by apply memo_call_entry).
      destruct (memo_call key st) as [x st1]. simpl in H1.
      destruct (IH st1 H1 Hreq Hresp) as (n & I1 & I2).
      destruct (resolver_run trace st1) as [b st2]. simpl in *.
      exists n. split; [done|].
      intros a Ha. apply elem_of_cons in Ha as [Ha|Ha]; [|by apply I2].
      congruence.
  - simpl in Hreq.
    assert (entries (memo_settle key (getUser key outcome) st) !! id = None) as H1.
    { destruct (getUser_returns key outcome) as (r & ->). by apply memo_settle_entry. }
    destruct (IH _ H1 Hreq Hresp) as (n & I1 & I2).
    destruct (resolver_run trace _) as [b st2]. simpl in *. by exists n.
Qed.

(** Once the lookup of [id] has settled, every request for [id] is
    answered with its ticket and its value, whatever comes later. *)
Lemma resolver_run_resolved id n r trace : forall st,
  entries st !! id = Some (Resolved n r) ->
  entries (snd (resolver_run trace st)) !! id = Some (Resolved n r) /\
  forall a, (id, a) ∈ fst (resolver_run trace st) ->
    a = {| observed := n; available := Some r |}.
Proof.
  induction trace as [|ev trace IH]; intros st Hid.
  - simpl. split; [done|]. intros a Ha. by apply elem_of_nil in Ha.
  - simpl. destruct ev as [key|key outcome]; simpl.
    + assert (entries (snd (memo_call key st)) !! id = Some (Resolved n r) /\
              (key = id -> fst (memo_call key st) =
                             {| observed := n; available := Some r |})) as [H1 H2].
      { unfold memo_call. destruct (entries st !! key) as [[m|m r']|] eqn:Hkey; simpl.
        - split; [done|]. intros ->. congruence.
        - split; [done|]. intros ->. congruence.
        - split; [|intros ->; congruence].
          rewrite lookup_insert_ne; [done|]. intros ->. congruence. }
      destruct (memo_call key st) as [x st1]. simpl in H1, H2.
      destruct (IH st1 H1) as [I1 I2].
      destruct (resolver_run trace st1) as [b st2]. simpl in *.
      split; [done|]. intros a Ha. apply elem_of_cons in Ha as [Ha|Ha]; [|by apply I2].
      injection Ha as -> ->. by apply H2.
    + assert (entries (memo_settle key (getUser key outcome) st) !! id =
              Some (Resolved n r)) as H1.
      { unfold memo_settle. destruct (entries st !! key) as [[m|m r']|] eqn:Hkey; try done.
        assert (key <> id) as Hne by (intros ->; congruence).
        destruct (getUser key outcome); simpl.
        - by rewrite lookup_insert_ne.
        - by rewrite lookup_delete_ne. }
      destruct (IH _ H1) as [I1 I2].
      destruct (resolver_run trace _) as [b st2]. simpl in *. done.
Qed.

(** A response to the lookup in flight for [id] fixes what every caller
    gets: the callers before it hold the ticket of the lookup, the
    callers after it get the record the lookup returned. *)
Lemma resolver_run_settles pre id outcome post :
  requested id pre = true ->
  responded id pre = false ->
  exists n r,
    getUser id outcome = Returns r /\
    entries (snd (resolver_run (pre ++ Response id outcome :: post) memo_init)) !! id =
      Some (Resolved n r) /\
    (forall a, (id, a) ∈ fst (resolver_run pre memo_init) ->
       a = {| observed := n; available := None |}) /\
    (forall a, (id, a) ∈ fst (resolver_run post
                               (memo_settle id (getUser id outcome)
                                  (snd (resolver_run pre memo_init)))) ->
       a = {| observed := n; available := Some r |}).
Proof.
  intros Hreq Hresp.
  destruct (resolver_run_starts id pre memo_init (lookup_empty _) Hreq Hresp)
    as (n & Hn & Hpre).
  destruct (getUser_returns id outcome) as (r & Hr).
  exists n, r. split; [done|].
  rewrite resolver_run_app. cbn [snd fst resolver_run resolver_step].
  set (st1 := snd (resolver_run pre memo_init)) in *.
  assert (entries (memo_settle id (getUser id outcome) st1) !! id =
          Some (Resolved n r)) as Hset.
  { unfold memo_settle. rewrite Hn, Hr. simpl. by rewrite lookup_insert_eq. }
  destruct (resolver_run_resolved id n r post _ Hset) as [H1 H2].
  destruct (resolver_run post _) as [b st2] eqn:Hpost. simpl in *.
  done.
Qed.

(** ** Response enricher *)

Lemma get_field_set_field k k' v entries :
  get_field k' (set_field k v entries) =
    if String.eqb k k' then Some v else get_field k' entries.
Proof.
  induction entries as [|[k0 v0] l IH]; simpl.
  - done.
  - destruct (String.eqb_spec k0 k) as [->|Hne]; simpl.
    + by destruct (String.eqb k k').
    + rewrite IH. destruct (String.eqb_spec k0 k') as [->|Hne'].
      * by rewrite (proj2 (String.eqb_neq k k')) by congruence.
      * done.
Qed.

Lemma get_field_map (g : json -> json) k entries :
  get_field k (map (fun kv => (fst kv, g (snd kv))) entries) = g <$> get_field k entries.
Proof.
  induction entries as [|[k0 v0] l IH]; simpl; [done|].
  by destruct (String.eqb k0 k).
Qed.

Lemma get_field_elem_of k v entries : get_field k entries = Some v -> (k, v) ∈ entries.
Proof.
  induction entries as [|[k0 v0] l IH]; simpl; [done|].
  destruct (String.eqb_spec k0 k) as [->|Hne].
  - intros [= ->]. left.
  - intros H. right. auto.
Qed.

Lemma descend_entries g (entries : list (string * json)) :
  map (fun kv => if typeof_object (snd kv) then (fst kv, g (snd kv)) else kv) entries =
  map (fun kv => (fst kv, descend g (snd kv))) entries.
Proof.
  apply map_ext. intros [k v]. unfold descend. simpl. by destruct (typeof_object v).
Qed.

Lemma get_field_with_user_info r k entries :
  get_field k (with_user_info r entries) =
    match user_to_resolve entries with
    | Some u =>
        if String.eqb "user_username" k then Some (JString (username (r u)))
        else if String.eqb "user_display_name" k then Some (JString (displayName (r u)))
        else get_field k entries
    | None => get_field k entries
    end.
Proof.
  unfold with_user_info. destruct (user_to_resolve entries); [|done].
  by rewrite !get_field_set_field.
Qed.

Section Enricher.
Variable users_info : string -> lookup_outcome.

Lemma resolve_eq st id :
  resolve users_info st id =
    match entries (memo st) !! id with
    | Some (Resolved _ r) => r
    | _ => match getUser id (users_info id) with
           | Returns r => r
           | Throws _ => degraded id
           end
    end.
Proof.
  unfold resolve, memoizedGetUser, memo_call.
  destruct (entries (memo st) !! id) as [[n|n r]|]; simpl; done.
Qed.

(** The memoized resolver never throws, answers [resolve], and leaves
    every later answer as it was. *)
Lemma memoizedGetUser_spec st id :
  exists st',
    memoizedGetUser users_info id st = (Returns (resolve users_info st id), st') /\
    (forall i, resolve users_info st' i = resolve users_info st i) /\
    requests st' = requests st.
Proof.
  rewrite resolve_eq. unfold memoizedGetUser, memo_call.
  destruct (getUser_returns id (users_info id)) as [r Hr].
  destruct (entries (memo st) !! id) as [[n|n r0]|] eqn:Hid; simpl; rewrite ?Hr.
  - eexists; split; [reflexivity|]. split; [|done].
    intros i. rewrite !resolve_eq. unfold memo_settle. simpl. rewrite Hid. simpl.
    destruct (decide (id = i)) as [<-|Hne].
    + by rewrite lookup_insert_eq, Hid, Hr.
    + by rewrite lookup_insert_ne.
  - eexists; split; [reflexivity|]. split; [|done].
    intros i. by rewrite !resolve_eq.
  - eexists; split; [reflexivity|]. split; [|done].
    intros i. rewrite !resolve_eq. unfold memo_settle. simpl.
    rewrite lookup_insert_eq. simpl.
    destruct (decide (id = i)) as [<-|Hne].
    + by rewrite lookup_insert_eq, Hid, Hr.
    + by rewrite !lookup_insert_ne.
Qed.

Section Invariant.
(** Any property of the state that the resolver preserves is
    preserved by enrichment. *)
Variable I : client_state -> Prop.
Hypothesis I_resolver :
  forall id st, I st -> I (snd (memoizedGetUser users_info id st)).
Variable r : string -> IdentityRecord.
Variable q : list gateway_call.

Lemma mapM_agrees {A B} (f : A -> M B) (g : A -> B) l :
  (forall x st,
     agrees_with users_info I r q st ->
     exists st', f x st = (Returns (g x), st') /\ agrees_with users_info I r q st') ->
  forall st,
    agrees_with users_info I r q st ->
    exists st', mapM f l st = (Returns (map g l), st') /\
                agrees_with users_info I r q st'.
Proof.
  intros Hf. induction l as [|x l IH]; intros st Hst; simpl.
  - by exists st.
  - unfold bind. destruct (Hf x st Hst) as (st1 & -> & Hst1).
    destruct (IH st1 Hst1) as (st2 & -> & Hst2).
    by exists st2.
Qed.

Lemma add_user_info_agrees entries st :
  agrees_with users_info I r q st ->
  exists st', add_user_info users_info entries st =
                (Returns (with_user_info r entries), st') /\
              agrees_with users_info I r q st'.
Proof.
  intros (Hr & Hq & HI). unfold add_user_info, with_user_info.
  destruct (user_to_resolve entries) as [u|]; [|by exists st].
  unfold bind. pose proof (I_resolver u st HI) as HI'.
  destruct (memoizedGetUser_spec st u) as (st' & Hm & Hr' & Hq').
  rewrite Hm in *. simpl in HI'. rewrite Hr.
  exists st'. split; [done|]. repeat split; [|congruence|done].
  intros i. by rewrite Hr'.
Qed.

Lemma enrich_fuel_agrees fuel : forall obj st,
  agrees_with users_info I r q st ->
  exists st', enrich_fuel users_info fuel obj st =
                (Returns (enriched_tree r fuel obj), st') /\
              agrees_with users_info I r q st'.
Proof.
  induction fuel as [|fuel IH]; intros obj st Hst; simpl.
  - by exists st.
  - destruct obj as [ | b | x | s | items | entries ]; try (by exists st).
    + unfold bind.
      destruct (mapM_agrees (enrich_fuel users_info fuel) (enriched_tree r fuel)
                  items IH st Hst) as (st' & -> & Hst').
      by exists st'.
    + unfold bind at 1.
      destruct (add_user_info_agrees entries st Hst) as (st1 & -> & Hst1).
      unfold bind at 1.
      match goal with |- context [mapM ?f ?l st1] =>
        destruct (mapM_agrees f
                    (fun kv => if typeof_object (snd kv)
                               then (fst kv, enriched_tree r fuel (snd kv))
                               else kv) l) with (st := st1)
          as (st2 & -> & Hst2) end; [|done|by exists st2].
      intros [k v] st0 Hst0. simpl.
      destruct (typeof_object v); [|by exists st0].
      unfold bind. destruct (IH v st0 Hst0) as (st3 & -> & Hst3).
      by exists st3.
Qed.
End Invariant.

(** Enrichment returns, with the tree built from the resolver's
    answers; it sends no gateway request. *)
Lemma enrichWithUserInfo_spec obj st :
  exists st',
    enrichWithUserInfo users_info obj st =
      (Returns (enriched_tree (resolve users_info st) (S (depth obj)) obj), st') /\
    requests st' = requests st.
Proof.
  destruct (enrich_fuel_agrees (fun _ => True) (fun _ _ _ => Logic.I)
              (resolve users_info st) (requests st) (S (depth obj)) obj st)
    as (st' & H & _ & Hq & _); [done|].
  by exists st'.
Qed.

End Enricher.

(** ** One lookup per identifier, also in a run of the enricher *)

Lemma memoizedGetUser_wf users_info id st :
  memo_wf (memo st) -> memo_wf (memo (snd (memoizedGetUser users_info id st))).
Proof.
  intros Hwf. unfold memoizedGetUser.
  pose proof (memo_call_wf id (memo st) Hwf) as Hwf1.
  destruct (memo_call id (memo st)) as [answer m1]. simpl in Hwf1.
  destruct (available answer); simpl; [done|].
  destruct (getUser_returns id (users_info id)) as [r ->].
  by apply memo_settle_wf.
Qed.

Lemma enrichWithUserInfo_single_lookups users_info obj st id :
  memo_wf (memo st) ->
  lookups_for id (memo (snd (enrichWithUserInfo users_info obj st))) <= 1.
Proof.
  intros Hwf.
  destruct (enrich_fuel_agrees users_info (fun st => memo_wf (memo st))
              (memoizedGetUser_wf users_info)
              (resolve users_info st) (requests st) (S (depth obj)) obj st)
    as (st' & H & _ & _ & Hwf'); [done|].
  unfold enrichWithUserInfo. rewrite H. simpl.
  specialize (Hwf' id). destruct (entries (memo st') !! id); [destruct Hwf'|]; lia.
Qed.

Example two_occurrences_one_lookup :
  issued (memo (snd (enrichWithUserInfo only_U123 thread client_init))) = ["U123"].
Proof. reflexivity. Qed.

(** ** The fuel of the enricher never runs out *)

Lemma list_max_elem_of {A} (f : A -> nat) x l : x ∈ l -> f x <= list_max (map f l).
Proof.
  induction 1 as [x l|x y l _ IH]; simpl; lia.
Qed.

Lemma depth_item x items : x ∈ items -> depth x < depth (JArray items).
Proof.
  intros H. simpl. pose proof (list_max_elem_of depth x items H). lia.
Qed.

Lemma depth_entry (kv : string * json) entries :
  kv ∈ entries -> depth (snd kv) < depth (JObject entries).
Proof.
  intros H. simpl.
  pose proof (list_max_elem_of (fun kv => depth (snd kv)) kv entries H). simpl in *. lia.
Qed.

Lemma set_field_elem_of k v entries kv :
  kv ∈ set_field k v entries -> kv ∈ entries \/ snd kv = v.
Proof.
  induction entries as [|[k0 v0] l IH]; simpl.
  - rewrite list_elem_of_singleton. intros ->. by right.
  - destruct (String.eqb k0 k).
    + rewrite !elem_of_cons. intros [->|?]; [by right | left; by right].
    + rewrite !elem_of_cons. intros [->|H]; [left; by left|].
      destruct (IH H); [left; by right | by right].
Qed.

Lemma with_user_info_depth r entries kv :
  kv ∈ with_user_info r entries -> depth (snd kv) < depth (JObject entries).
Proof.
  unfold with_user_info. destruct (user_to_resolve entries) as [u|].
  - intros H. apply set_field_elem_of in H as [H | ->]; [|simpl; lia].
    apply set_field_elem_of in H as [H | ->]; [|simpl; lia].
    by apply depth_entry.
  - apply depth_entry.
Qed.

Lemma mapM_ext_elem_of {A B} (f g : A -> M B) l :
  (forall x, x ∈ l -> forall st, f x st = g x st) ->
  forall st, mapM f l st = mapM g l st.
Proof.
  induction l as [|x l IH]; intros H st; simpl; [done|].
  unfold bind. rewrite (H x) by left.
  destruct (g x st) as [[y|e] st1]; [|done].
  rewrite IH; [done|]. intros x' Hx'. apply H. by right.
Qed.

Lemma add_user_info_depth users_info entries st enriched st' kv :
  add_user_info users_info entries st = (Returns enriched, st') ->
  kv ∈ enriched -> depth (snd kv) < depth (JObject entries).
Proof.
  unfold add_user_info. destruct (user_to_resolve entries) as [u|].
  - unfold bind. destruct (memoizedGetUser users_info u st) as [[info|e] st1]; [|done].
    intros [= <- <-] H.
    apply set_field_elem_of in H as [H | ->]; [|simpl; lia].
    apply set_field_elem_of in H as [H | ->]; [|simpl; lia].
    by apply depth_entry.
  - intros [= <- <-]. apply depth_entry.
Qed.

Lemma bind_ext {A B} (m : M A) (k k' : A -> M B) st :
  (forall a st', m st = (Returns a, st') -> k a st' = k' a st') ->
  bind m k st = bind m k' st.
Proof.
  intros H. unfold bind. destruct (m st) as [[a|e] st']; [by apply H | done].
Qed.

(** Any fuel above the height of the tree gives the same run. *)
Lemma enrich_fuel_enough users_info n : forall m obj st,
  depth obj < n -> depth obj < m ->
  enrich_fuel users_info n obj st = enrich_fuel users_info m obj st.
Proof.
  induction n as [|n IH]; intros m obj st Hn Hm; [lia|].
  destruct m as [|m]; [lia|].
  destruct obj as [ | b | x | s | items | entries ]; try done.
  - simpl. unfold bind.
    rewrite (mapM_ext_elem_of (enrich_fuel users_info n) (enrich_fuel users_info m)); [done|].
    intros x Hx st0. apply depth_item in Hx. apply IH; lia.
  - simpl enrich_fuel. apply bind_ext. intros enriched st1 Hadd.
    unfold bind. erewrite mapM_ext_elem_of; [reflexivity|].
    intros [k v] Hkv st0. simpl.
    destruct (typeof_object v); [|done].
    pose proof (add_user_info_depth _ _ _ _ _ _ Hadd Hkv) as Hd.
    simpl in Hd, Hn, Hm. rewrite (IH m v st0); [done|simpl; lia..].
Qed.

Section EnricherEquations.
Variable users_info : string -> lookup_outcome.

(** The three cases of [enrichWithUserInfo], as the source has them. *)
Lemma enrichWithUserInfo_leaf obj st :
  match obj with JArray _ | JObject _ => False | _ => True end ->
  enrichWithUserInfo users_info obj st = ret obj st.
Proof. by destruct obj. Qed.

Lemma enrichWithUserInfo_array items st :
  enrichWithUserInfo users_info (JArray items) st =
    (let* items' := mapM (enrichWithUserInfo users_info) items in
     ret (JArray items')) st.
Proof.
  change (enrichWithUserInfo users_info (JArray items) st) with
    (bind (mapM (enrich_fuel users_info (depth (JArray items))) items)
       (fun items' => ret (JArray items')) st).
  unfold bind.
  rewrite (mapM_ext_elem_of (enrich_fuel users_info (depth (JArray items)))
             (enrichWithUserInfo users_info)); [done|].
  intros x Hx st0. apply depth_item in Hx. unfold enrichWithUserInfo.
  apply enrich_fuel_enough; lia.
Qed.

Lemma enrichWithUserInfo_object entries st :
  enrichWithUserInfo users_info (JObject entries) st =
    (let* enriched := add_user_info users_info entries in
     let* enriched' :=
       mapM (fun kv =>
               if typeof_object (snd kv) then
                 let* value' := enrichWithUserInfo users_info (snd kv) in
                 ret (fst kv, value')
               else ret kv) enriched in
     ret (JObject enriched')) st.
Proof.
  change (enrichWithUserInfo users_info (JObject entries) st) with
    (bind (add_user_info users_info entries)
       (fun enriched =>
          bind (mapM (fun kv =>
                        if typeof_object (snd kv) then
                          bind (enrich_fuel users_info (depth (JObject entries)) (snd kv))
                            (fun value' => ret (fst kv, value'))
                        else ret kv) enriched)
            (fun enriched' => ret (JObject enriched'))) st).
  apply bind_ext. intros enriched st1 Hadd.
  unfold bind at 1 3. erewrite mapM_ext_elem_of; [reflexivity|].
  intros [k v] Hkv st0. cbn [fst snd].
  destruct (typeof_object v); [|done].
  unfold bind. pose proof (add_user_info_depth _ _ _ _ _ _ Hadd Hkv) as Hd.
  unfold enrichWithUserInfo. cbn [snd] in Hd.
  rewrite (enrich_fuel_enough users_info _ (S (depth v)) v st0); [done|lia..].
Qed.
End EnricherEquations.

(** ** Enrichment only adds *)

Lemma descend_additive exempt g v :
  (typeof_object v = true -> additive exempt v (g v)) ->
  additive exempt v (descend g v).
Proof.
  intros Hg. unfold descend. destruct (typeof_object v) eqn:Hv; [by apply Hg|].
  destruct v; try discriminate Hv; constructor.
Qed.

Lemma enriched_tree_additive r fuel :
  forall obj, depth obj < fuel ->
    additive (resolved_names_exempt r) obj (enriched_tree r fuel obj).
Proof.
  induction fuel as [|fuel IH]; intros obj Hd; [lia|].
  destruct obj as [ | b | x | s | items | entries ]; simpl; try constructor.
  - apply Forall2_fmap_r, Forall_Forall2_diag, Forall_forall.
    intros x Hx. apply IH. pose proof (depth_item x items Hx). lia.
  - intros k v Hk Hex.
    rewrite descend_entries, get_field_map, get_field_with_user_info.
    unfold resolved_names_exempt in Hex.
    assert (depth v < fuel) as Hv.
    { pose proof (depth_entry (k, v) entries (get_field_elem_of _ _ _ Hk)).
      simpl in *. lia. }
    destruct (user_to_resolve entries) as [u|].
    + destruct (String.eqb "user_username" k); [done|].
      destruct (String.eqb "user_display_name" k); [done|].
      rewrite Hk. eexists; split; [reflexivity|].
      apply descend_additive. intros _. by apply IH.
    + rewrite Hk. eexists; split; [reflexivity|].
      apply descend_additive. intros _. by apply IH.
  - intros k w Hex.
    rewrite descend_entries, get_field_map, get_field_with_user_info.
    unfold resolved_names_exempt in Hex.
    destruct (user_to_resolve entries) as [u|]; [|done].
    destruct (String.eqb "user_username" k); [by injection Hex as <-|].
    destruct (String.eqb "user_display_name" k); [by injection Hex as <-|done].
  - intros k.
    rewrite descend_entries, get_field_map, get_field_with_user_info.
    unfold resolved_name_key.
    destruct (user_to_resolve entries) as [u|].
    + destruct (String.eqb_spec "user_username" k) as [<-|Hn1]; [by right|].
      destruct (String.eqb_spec "user_display_name" k) as [<-|Hn2]; [by right|].
      destruct (get_field k entries); [by left | done].
    + destruct (get_field k entries); [by left | done].
Qed.

(** ** Enrichment reaches every object *)

Lemma subtree_at_object p v entries :
  subtree_at p v = Some (JObject entries) ->
  typeof_object v = true /\ truthy v = true.
Proof.
  destruct p as [|[k|i] p]; simpl.
  - by intros [= ->].
  - by destruct v.
  - by destruct v.
Qed.

Lemma user_to_resolve_Some entries u :
  user_to_resolve entries = Some u ->
  get_field "user" entries = Some (JString u) /\
  Regex.matches user_id_re u = true /\
  truthy_opt (get_field "user_display_name" entries) = false.
Proof.
  unfold user_to_resolve.
  destruct (get_field "user" entries) as [[ | | |s| | ]|]; try done.
  destruct (truthy (JString s)); [|done]. simpl.
  destruct (Regex.matches user_id_re s) eqn:Hm; [|done]. simpl.
  destruct (truthy_opt _); [done|]. simpl. by intros [= <-].
Qed.

Lemma user_to_resolve_intro entries u :
  get_field "user" entries = Some (JString u) ->
  Regex.matches user_id_re u = true ->
  truthy_opt (get_field "user_display_name" entries) = false ->
  user_to_resolve entries = Some u.
Proof.
  intros Hu Hm Hd. unfold user_to_resolve. rewrite Hu, Hm, Hd.
  by destruct u.
Qed.

Lemma enriched_tree_subtree r : forall p T fuel entries u,
  depth T < fuel ->
  subtree_at p T = Some (JObject entries) ->
  overwritten p T = false ->
  user_to_resolve entries = Some u ->
  exists entries',
    subtree_at p (enriched_tree r fuel T) = Some (JObject entries') /\
    get_field "user_display_name" entries' = Some (JString (displayName (r u))) /\
    get_field "user_username" entries' = Some (JString (username (r u))).
Proof.
  induction p as [|[k|i] p IH]; intros T fuel entries u Hfuel Hsub Hover Hu;
    (destruct fuel as [|fuel]; [lia|]).
  - simpl in Hsub. injection Hsub as ->. simpl.
    eexists; split; [reflexivity|].
    rewrite descend_entries, !get_field_map, !get_field_with_user_info, Hu. done.
  - destruct T as [ | | | | |es]; try done. simpl in Hsub, Hover.
    destruct (get_field k es) as [v|] eqn:Hk; [|done].
    apply orb_false_iff in Hover as [Hover1 Hover2].
    destruct (subtree_at_object _ _ _ Hsub) as [Hobj Htruthy].
    assert (depth v < fuel) as Hd.
    { apply get_field_elem_of, depth_entry in Hk. simpl in *. lia. }
    destruct (IH v fuel entries u Hd Hsub Hover2 Hu) as (entries' & H1 & H2 & H3).
    exists entries'. split; [|done]. simpl.
    rewrite descend_entries, get_field_map, get_field_with_user_info.
    assert (match user_to_resolve es with
            | Some u0 =>
                if String.eqb "user_username" k then Some (JString (username (r u0)))
                else if String.eqb "user_display_name" k
                     then Some (JString (displayName (r u0)))
                     else get_field k es
            | None => get_field k es
            end = Some v) as ->.
    { destruct (user_to_resolve es) as [u0|] eqn:Hu0; [|done].
      destruct (String.eqb_spec "user_username" k) as [<-|Hn1]; [done|].
      destruct (String.eqb_spec "user_display_name" k) as [<-|Hn2]; [|done].
      apply user_to_resolve_Some in Hu0 as (_ & _ & Hfalsy).
      rewrite Hk in Hfalsy. simpl in Hfalsy. congruence. }
    simpl. unfold descend. by rewrite Hobj.
  - destruct T as [ | | | |items| ]; try done. simpl in Hsub, Hover.
    destruct (items !! i) as [v|] eqn:Hi; [|done].
    assert (depth v < fuel) as Hd.
    { apply list_elem_of_lookup_2, depth_item in Hi. lia. }
    destruct (IH v fuel entries u Hd Hsub Hover Hu) as (entries' & H1 & H2 & H3).
    exists entries'. split; [|done]. simpl.
    by rewrite list_lookup_fmap, Hi.
Qed.

(** ** Tool router *)

Section Router.
Variable users_info : string -> lookup_outcome.
Variable slack_api : gateway_call -> completion json.

(** With every required argument present, the handler sends the
    request of the tool and replies with its result, normalized and,
    for the enriching tools, enriched; a throw on the way becomes an
    error reply. *)
Lemma callTool_present tool args st :
  tool ∈ tools ->
  all_present (required tool) args = true ->
  exists call,
    operation (tool_name tool) args = Some call /\
    callTool users_info slack_api (tool_name tool) (Some args) st =
      catch (let* data := request slack_api call in
             normalize_and_maybe_enrich users_info (tool_name tool) data)
            (fun error => ret (error_result error)) st.
Proof.
  intros Htool. each_tool Htool;
    unfold all_present; intros Hp; cbn -[get_field truthy_opt] in Hp;
    rewrite ?andb_true_r, ?andb_true_iff in Hp;
    (eexists; split; [reflexivity|]);
    unfold callTool, dispatch, missing; cbn -[get_field];
    repeat match goal with H : _ /\ _ |- _ => destruct H end;
    repeat match goal with H : truthy_opt _ = true |- _ => rewrite H; clear H end;
    cbn -[get_field];
    unfold reply, getChannels, postMessage, postReply, addReaction,
      getChannelHistory, getThreadReplies, getUsers, getUserProfile,
      searchMessages, normalized, normalized_and_enriched,
      normalize_and_maybe_enrich, catch, bind, request, lift, ret;
    cbn -[get_field enrichWithUserInfo convertTimestampsToISO];
    (destruct (slack_api _) as [data|e]; [|reflexivity]);
    (destruct (convertTimestampsToISO data) as [converted|e]; [|reflexivity]);
    try reflexivity;
    destruct (enrichWithUserInfo _ _ _) as [[?|?] ?]; reflexivity.
Qed.

(** With a required argument missing, the handler sends nothing and
    replies with the message of the tool. *)
Lemma callTool_missing tool args st :
  tool ∈ tools ->
  all_present (required tool) args = false ->
  callTool users_info slack_api (tool_name tool) (Some args) st =
    (Returns (error_result (Error (missing_message (tool_name tool)))), st).
Proof.
  intros Htool. each_tool Htool;
    unfold all_present; intros Hp; cbn -[get_field truthy_opt] in Hp;
    try discriminate;
    rewrite ?andb_true_r in Hp;
    unfold callTool, dispatch, missing; cbn -[get_field];
    repeat match type of Hp with
           | _ && _ = false => apply andb_false_iff in Hp as [Hp|Hp]
           end;
    rewrite ?Hp; cbn -[get_field];
    repeat match goal with
           | |- context [truthy_opt ?x] => destruct (truthy_opt x); cbn -[get_field]
           end;
    try reflexivity; try discriminate.
Qed.

Lemma callTool_unknown name args st :
  name ∉ map tool_name tools ->
  callTool users_info slack_api name (Some args) st =
    (Returns (error_result (Error ("Unknown tool: " +:+ name))), st).
Proof.
  intros Hname. unfold callTool, dispatch.
  repeat match goal with
         | |- context [String.eqb name ?s] =>
             destruct (String.eqb_spec name s) as [->|_];
             [exfalso; apply Hname; cbn; set_solver|]
         end.
  reflexivity.
Qed.

Lemma callTool_returns name arguments st :
  exists result st',
    callTool users_info slack_api name arguments st = (Returns result, st').
Proof.
  unfold callTool, catch.
  destruct (dispatch users_info slack_api name arguments st) as [[result|e] st'];
    eauto.
Qed.
End Router.

Example history_is_normalized_and_enriched :
  fst (callTool only_U123
         (fun _ => Returns (JObject [("ok", JBool true);
                     ("messages", JArray [JObject [("ts", JString "1700000000.123456");
                                                   ("user", JString "U123")];
                                          JObject [("ts", JString "1700000001.5");
                                                   ("user", JString "U999")]])]))
         "slack_get_channel_history" (Some history_args) client_init) =
    Returns (text_result
      (JObject [("ok", JBool true);
                ("messages",
                 JArray [JObject [("ts", JString "2023-11-14T22:13:20.123Z");
                                  ("user", JString "U123");
                                  ("user_display_name", JString "Ada L");
                                  ("user_username", JString "ada")];
                         JObject [("ts", JString "2023-11-14T22:13:21.500Z");
                                  ("user", JString "U999");
                                  ("user_display_name", JString "U999");
                                  ("user_username", JString "U999")]])])).
Proof. reflexivity. Qed.

(* ===================================================================== *)
(** * The claims                                                          *)
(* ===================================================================== *)

(** ** C1 *)

(** C1.  Whatever the interleaving of requests and responses, starting
    from the empty cache: the resolver starts exactly one upstream
    lookup for an identifier that is requested at all (and none
    otherwise); every request gets an answer, and every answer for the
    identifier names that one lookup.  When the response to the lookup
    arrives, the record is the one the resolver function returns for
    that response: the callers that asked while the lookup was in
    flight hold its ticket and no value yet, and every caller that asks
    afterwards gets that record, from the same lookup. *)
Theorem single_flight (trace : list resolver_event) (id : string) :
  let answers := fst (resolver_run trace memo_init) in
  let st := snd (resolver_run trace memo_init) in
  lookups_for id st = (if requested id trace then 1 else 0) /\
  map fst answers = request_ids trace /\
  (forall a, (id, a) ∈ answers ->
     exists e, entries st !! id = Some e /\
               observed a = entry_ticket e /\
               issued st !! entry_ticket e = Some id /\
               forall r, available a = Some r -> e = Resolved (entry_ticket e) r) /\
  (forall pre outcome post,
     trace = pre ++ Response id outcome :: post ->
     requested id pre = true ->
     responded id pre = false ->
     exists n r later,
       getUser id outcome = Returns r /\
       issued st !! n = Some id /\
       entries st !! id = Some (Resolved n r) /\
       answers = fst (resolver_run pre memo_init) ++ later /\
       map fst later = request_ids post /\
       (forall a, (id, a) ∈ fst (resolver_run pre memo_init) ->
          a = {| observed := n; available := None |}) /\
       (forall a, (id, a) ∈ later ->
          a = {| observed := n; available := Some r |})).
Proof.
  destruct (resolver_run_invariant trace memo_init id memo_wf_init)
    as (Hwf & _ & Hans & Hcount).
  cbn zeta. split; [|split; [|split]].
  - rewrite Hcount. simpl. by rewrite lookup_empty.
  - apply resolver_run_answers.
  - intros a Ha. rewrite Forall_forall in Hans.
    destruct (Hans _ Ha) as (e & He & Ht & Hv). simpl in *.
    exists e. split; [done|]. split; [done|].
    pose proof (Hwf id) as Hid. rewrite He in Hid. destruct Hid as [Hid _].
    split; [done|]. intros r Hr. rewrite Ht. by apply Hv.
  - intros pre outcome post -> Hreq Hresp.
    destruct (resolver_run_settles pre id outcome post Hreq Hresp)
      as (n & r & Hr & Hentry & Hpre & Hpost).
    exists n, r, (fst (resolver_run post
                         (memo_settle id (getUser id outcome)
                            (snd (resolver_run pre memo_init))))).
    split; [done|]. split.
    { pose proof (Hwf id) as Hid. rewrite Hentry in Hid. by destruct Hid. }
    split; [done|]. split.
    { rewrite resolver_run_app. cbn [fst resolver_run resolver_step].
      by destruct (resolver_run post _). }
    split; [apply resolver_run_answers|]. done.
Qed.

Lemma single_flight_witness :
  let trace := [Request "U123"; Request "U123"; Response "U123" (JsonData ada);
                Request "U123"] in
  lookups_for "U123" (snd (resolver_run trace memo_init)) = 1 /\
  fst (resolver_run trace memo_init) =
    [ ("U123", {| observed := 0; available := None |});
      ("U123", {| observed := 0; available := None |});
      ("U123", {| observed := 0;
                  available := Some {| displayName := "Ada L"; username := "ada" |} |}) ].
Proof.
  cbn zeta.
  destruct (single_flight
              [Request "U123"; Request "U123"; Response "U123" (JsonData ada);
               Request "U123"] "U123") as (Hcount & _ & _ & Hsettle).
  split; [exact Hcount|].
  destruct (Hsettle [Request "U123"; Request "U123"] (JsonData ada) [Request "U123"]
              eq_refl eq_refl eq_refl)
    as (n & r & later & Hr & _ & _ & -> & Hids & Hpre & Hlater).
  injection Hr as <-.
  assert (n = 0) as ->.
  { assert (("U123", {| observed := 0; available := None |}) ∈
            fst (resolver_run [Request "U123"; Request "U123"] memo_init)) as H0
      by (vm_compute; left).
    apply Hpre in H0. by injection H0. }
  destruct later as [|[i a] [|? ?]]; try discriminate Hids.
  injection Hids as ->.
  rewrite (Hlater a) by left. reflexivity.
Defined.

(** ** C3 *)

(** C3, as the code has it.  A failed lookup does not raise: the
    resolver returns the degraded record.  That record is memoized like
    any other result: a later request for the same identifier is
    answered from the cache with the degraded record, and no second
    upstream lookup is started. *)
Theorem failed_lookup_is_memoized (id : string) (outcome : lookup_outcome)
    (st : memo_state) :
  lookup_failed outcome = true ->
  entries st !! id = None ->
  getUser id outcome = Returns (degraded id) /\
  resolver_run [Request id; Response id outcome; Request id] st =
    ([ (id, {| observed := length (issued st); available := None |});
       (id, {| observed := length (issued st); available := Some (degraded id) |}) ],
     {| entries := <[id := Resolved (length (issued st)) (degraded id)]> (entries st);
        issued := issued st ++ [id] |}).
Proof.
  intros Hfail Hnone. split; [by apply getUser_failed|].
  simpl. unfold memo_call at 1. rewrite Hnone.
  rewrite (getUser_failed _ _ Hfail).
  unfold memo_settle. simpl. rewrite lookup_insert_eq.
  unfold memo_call. simpl. rewrite lookup_insert_eq. simpl.
  by rewrite insert_insert_eq.
Qed.

Lemma failed_lookup_is_memoized_witness :
  getUser "U123" (FetchRejects fetch_failed) = Returns (degraded "U123") /\
  fst (resolver_run
         [Request "U123"; Response "U123" (FetchRejects fetch_failed); Request "U123"]
         memo_init) =
    [ ("U123", {| observed := 0; available := None |});
      ("U123", {| observed := 0; available := Some (degraded "U123") |}) ].
Proof.
  destruct (failed_lookup_is_memoized "U123" (FetchRejects fetch_failed) memo_init
              eq_refl (lookup_empty _)) as [H1 H2].
  split; [exact H1 | exact (f_equal fst H2)].
Defined.

(** The claim as stated asks for a fresh lookup after a failure.  After
    a failed lookup of [U123] the next request starts none: one lookup
    in all, and the answer is the degraded record from the cache. *)
Lemma failed_lookup_not_retried :
  let run := resolver_run
               [Request "U123"; Response "U123" (FetchRejects fetch_failed);
                Request "U123"] memo_init in
  lookups_for "U123" (snd run) = 1 /\
  lookups_for "U123" (snd run) <> 2 /\
  last (fst run) =
    Some ("U123", {| observed := 0; available := Some (degraded "U123") |}).
Proof. vm_compute. repeat split. discriminate. Qed.

(** ** C2 *)

(** C2.  Normalizing twice is normalizing once: a second run over the
    result of a first run returns it unchanged (and a run that throws
    throws the same way again).  In particular the ISO string written
    by a conversion is not a numeric string, so a field that holds one
    is left as it is. *)
Theorem normalization_idempotent (T : json) :
  completion_bind (convertTimestampsToISO T) convertTimestampsToISO =
    convertTimestampsToISO T /\
  forall key s,
    match timestamp_to_iso s with
    | Returns iso =>
        is_numeric_string (JString iso) = false /\
        convertTimestampsToISO (JObject [(key, JString iso)]) =
          Returns (JObject [(key, JString iso)])
    | Throws _ => True
    end.
Proof.
  split.
  - destruct (convertTimestampsToISO T) as [T'|e] eqn:H; [|done].
    simpl. by apply (convert_fixed T).
  - intros key s. destruct (timestamp_to_iso s) as [iso|] eqn:Hiso; [|done].
    pose proof (timestamp_to_iso_not_numeric _ _ Hiso) as Hn.
    split; [done|]. simpl. rewrite convert_entry_kept; [done|].
    by rewrite Hn, andb_false_r.
Qed.

(** ** C6 *)

(** C6, as the code has it.  When every timestamp the normalizer
    converts denotes a valid date, normalization returns a tree of the
    same shape in which exactly the fields with a timestamp key and a
    numeric-string value hold the ISO string of
    [parseFloat(value) * 1000] milliseconds, and everything else, also
    a non-numeric value under a timestamp key and every value that is
    not an object or array, is unchanged.  Otherwise it throws the
    [RangeError] of [toISOString]. *)
Theorem normalization_contract (T : json) :
  if timestamps_in_range T
  then exists T', convertTimestampsToISO T = Returns T' /\ normalized_as T T'
  else convertTimestampsToISO T = Throws JsDate.invalid_time_value.
Proof.
  destruct (timestamps_in_range T) eqn:H.
  - by apply convert_in_range.
  - by apply convert_out_of_range.
Qed.

(** The claim as stated promises a result for every JSON value.  A
    timestamp in microseconds is a numeric string under a timestamp
    key; its date is out of range and the normalizer throws. *)
Lemma normalization_throws_out_of_range :
  let T := JObject [("ok", JBool true); ("ts", JString "1700000000123456")] in
  convertTimestampsToISO T = Throws JsDate.invalid_time_value /\
  ~ exists T', convertTimestampsToISO T = Returns T' /\ normalized_as T T'.
Proof.
  cbn zeta. split; [reflexivity|].
  intros (T' & H & _). vm_compute in H. discriminate H.
Qed.

(** ** C4 *)

(** C4, as the code has it.  Take any object of the input tree, at any
    depth, that has a [user] field holding a string that matches the
    identifier pattern and has no truthy [user_display_name] (absent
    included), and that does not lie below the [user_username] field of
    an object that itself passes this test.  Enrichment returns a tree
    that has, at the same place, an object whose [user_display_name]
    and [user_username] are the display name and the handle the
    resolver returns for that identifier. *)
Theorem enrichment_reaches_every_object
    (users_info : string -> lookup_outcome) (T : json) (st : client_state)
    (p : list step) (entries : list (string * json)) (u : string) :
  subtree_at p T = Some (JObject entries) ->
  overwritten p T = false ->
  get_field "user" entries = Some (JString u) ->
  Regex.matches user_id_re u = true ->
  truthy_opt (get_field "user_display_name" entries) = false ->
  exists T' st' entries',
    enrichWithUserInfo users_info T st = (Returns T', st') /\
    subtree_at p T' = Some (JObject entries') /\
    get_field "user_display_name" entries' =
      Some (JString (displayName (resolve users_info st u))) /\
    get_field "user_username" entries' =
      Some (JString (username (resolve users_info st u))).
Proof.
  intros Hsub Hover Huser Hmatch Hname.
  destruct (enrichWithUserInfo_spec users_info T st) as (st' & Hrun & _).
  pose proof (user_to_resolve_intro _ _ Huser Hmatch Hname) as Hu.
  destruct (enriched_tree_subtree (resolve users_info st) p T (S (depth T)) entries u)
    as (entries' & H1 & H2 & H3); [lia|done..|].
  by exists (enriched_tree (resolve users_info st) (S (depth T)) T), st', entries'.
Qed.

Lemma enrichment_reaches_every_object_witness :
  exists T' st' entries',
    enrichWithUserInfo only_U123 thread client_init = (Returns T', st') /\
    subtree_at [Key "messages"; Index 0; Key "replies"; Index 0] T' =
      Some (JObject entries') /\
    get_field "user_display_name" entries' =
      Some (JString (displayName (resolve only_U123 client_init "U123"))) /\
    get_field "user_username" entries' =
      Some (JString (username (resolve only_U123 client_init "U123"))).
Proof.
  apply (enrichment_reaches_every_object only_U123 thread client_init
           [Key "messages"; Index 0; Key "replies"; Index 0]
           [("user", JString "U123")] "U123"); reflexivity.
Defined.

(** The claim as stated covers every object of the tree.  An object
    stored under [user_username] of an object that is itself enriched
    is replaced by the resolved handle before the descent: it ends up
    with no added fields, it is gone. *)
Lemma enrichment_misses_overwritten_object :
  let T := JObject [("user", JString "U123");
                    ("user_username", JObject [("user", JString "U123")])] in
  subtree_at [Key "user_username"] T = Some (JObject [("user", JString "U123")]) /\
  exists T',
    fst (enrichWithUserInfo only_U123 T client_init) = Returns T' /\
    subtree_at [Key "user_username"] T' = Some (JString "ada").
Proof. cbn zeta. split; [reflexivity|]. eexists. split; reflexivity. Qed.

(** ** C5 *)

(** C5, as the code has it.  Enrichment always returns, and its result
    is the input with keys added, up to the two resolved-name fields.
    In an object that passes the enrichment test, [user_display_name]
    and [user_username] are set to the display name and the handle the
    resolver returns for its [user]: a value that was there is replaced,
    with everything nested in it.  Apart from these two fields of such
    objects: arrays keep their elements in order, every key of an
    object is still there with the old value (enriched in turn below
    it), and a key that was not there is [user_display_name] or
    [user_username]. *)
Theorem enrichment_is_additive
    (users_info : string -> lookup_outcome) (T : json) (st : client_state) :
  exists T' st',
    enrichWithUserInfo users_info T st = (Returns T', st') /\
    additive (resolved_names_exempt (resolve users_info st)) T T'.
Proof.
  destruct (enrichWithUserInfo_spec users_info T st) as (st' & Hrun & _).
  eexists _, st'. split; [exact Hrun|]. apply enriched_tree_additive. lia.
Qed.

(** The claim as stated leaves no value changed.  A message that
    already has a [user_username] but no [user_display_name] passes the
    enrichment test, and its [user_username] is written over. *)
Lemma enrichment_overwrites_username :
  let T := JObject [("user", JString "U123"); ("user_username", JString "countess")] in
  exists T',
    fst (enrichWithUserInfo only_U123 T client_init) = Returns T' /\
    get_field "user_username" [("user", JString "U123");
                               ("user_username", JString "countess")] =
      Some (JString "countess") /\
    subtree_at [Key "user_username"] T' = Some (JString "ada") /\
    ~ additive never_exempt T T'.
Proof.
  cbn zeta. eexists. split; [reflexivity|]. split; [reflexivity|].
  split; [reflexivity|].
  inversion 1 as [ | | | | |? ? Hkeys Hset Hnew]; subst.
  destruct (Hkeys "user_username" (JString "countess") eq_refl eq_refl)
    as (v' & Hv' & Hadd).
  vm_compute in Hv'. injection Hv' as <-.
  inversion Hadd.
Qed.

(** ** C7 *)

(** C7, as the code has it.  For every tool of the catalog, called with
    all its required arguments: the handler sends exactly the request
    of the gateway operation of that tool.  When the operation yields
    [data] and the normalizer returns, the reply is one text item that
    serializes the normalized data, which has also gone through the
    enricher for [slack_get_channel_history], [slack_get_thread_replies]
    and [slack_search_messages], and only for these.  When the
    normalizer throws, which it does with the [RangeError] of
    [toISOString] only, the reply is the error
    [{ error: "Invalid time value" }] and the enricher is not run. *)
Theorem callTool_pipeline
    (users_info : string -> lookup_outcome)
    (slack_api : gateway_call -> completion json)
    (tool : Tool) (args : list (string * json)) (st : client_state)
    (call : gateway_call) (data : json) :
  tool ∈ tools ->
  all_present (required tool) args = true ->
  operation (tool_name tool) args = Some call ->
  slack_api call = Returns data ->
  exists st',
    requests st' = requests st ++ [call] /\
    match convertTimestampsToISO data with
    | Returns converted =>
        exists response,
          callTool users_info slack_api (tool_name tool) (Some args) st =
            (Returns (text_result response), st') /\
          if enriching (tool_name tool)
          then enrichWithUserInfo users_info converted (sent call st) =
                 (Returns response, st')
          else response = converted /\ st' = sent call st
    | Throws error =>
        error = JsDate.invalid_time_value /\
        callTool users_info slack_api (tool_name tool) (Some args) st =
          (Returns (text_result (JObject [("error", JString "Invalid time value")])),
           st') /\
        st' = sent call st
    end.
Proof.
  intros Htool Hargs Hop Hapi.
  destruct (callTool_present users_info slack_api tool args st Htool Hargs)
    as (call' & Hop' & Hcall).
  assert (call' = call) as -> by congruence.
  unfold catch, bind at 1, request in Hcall. rewrite Hapi in Hcall.
  unfold normalize_and_maybe_enrich, bind at 1, lift in Hcall.
  fold (sent call st) in Hcall.
  destruct (convertTimestampsToISO data) as [converted|error] eqn:Hconv.
  - destruct (enriching (tool_name tool)).
    + destruct (enrichWithUserInfo_spec users_info converted (sent call st))
        as (st' & Hrun & Hreq).
      unfold bind in Hcall. rewrite Hrun in Hcall.
      exists st'. split; [done|].
      exists (enriched_tree (resolve users_info (sent call st))
                (S (depth converted)) converted).
      done.
    + exists (sent call st). split; [done|]. by exists converted.
  - exists (sent call st). split; [done|].
    assert (error = JsDate.invalid_time_value) as ->.
    { destruct (timestamps_in_range data) eqn:Hr.
      - destruct (convert_in_range data Hr) as (T' & HT' & _). congruence.
      - pose proof (convert_out_of_range data Hr). congruence. }
    done.
Qed.

Lemma callTool_pipeline_witness :
  exists st',
    requests st' =
      [GetChannelHistory (Some (JString "C1")) (Some (JNumber (S754_finite false 5 0)))] /\
    exists response,
      callTool only_U123 (fun _ => Returns posted) "slack_get_channel_history"
        (Some history_args) client_init = (Returns (text_result response), st') /\
      enrichWithUserInfo only_U123
        (JObject [("ok", JBool true); ("ts", JString "2023-11-14T22:13:20.000Z");
                  ("message", JObject [("user", JString "U123"); ("text", JString "hi")])])
        (sent (GetChannelHistory (Some (JString "C1"))
                 (Some (JNumber (S754_finite false 5 0)))) client_init) =
        (Returns response, st').
Proof.
  apply (callTool_pipeline only_U123 (fun _ => Returns posted) getChannelHistoryTool
           history_args client_init
           (GetChannelHistory (Some (JString "C1")) (Some (JNumber (S754_finite false 5 0))))
           posted).
  - unfold tools. set_solver.
  - reflexivity.
  - reflexivity.
  - reflexivity.
Defined.

(** The claim as stated sends every tool's result through the enricher.
    The reply of [slack_post_message] is normalized only: the message
    in it keeps its bare [user]. *)
Lemma post_message_is_not_enriched :
  fst (callTool only_U123 (fun _ => Returns posted) "slack_post_message"
         (Some post_args) client_init) =
    Returns (text_result
      (JObject [("ok", JBool true); ("ts", JString "2023-11-14T22:13:20.000Z");
                ("message", JObject [("user", JString "U123"); ("text", JString "hi")])])) /\
  fst (normalize_then_enrich only_U123 posted client_init) =
    Returns (text_result
      (JObject [("ok", JBool true); ("ts", JString "2023-11-14T22:13:20.000Z");
                ("message", JObject [("user", JString "U123"); ("text", JString "hi");
                                     ("user_display_name", JString "Ada L");
                                     ("user_username", JString "ada")])])) /\
  fst (callTool only_U123 (fun _ => Returns posted) "slack_post_message"
         (Some post_args) client_init) <>
  fst (normalize_then_enrich only_U123 posted client_init).
Proof. repeat split; [reflexivity..|]. vm_compute. discriminate. Qed.

(** ** C8 *)

(** C8.  A call with a required argument missing is answered with one
    text item that serializes [{ error: <message> }], the message being
    the one that names the required arguments of the tool, and nothing
    is sent.  More generally the handler never throws: whatever the
    body of its [try] throws is answered as [{ error: <message> }]; so
    is an unknown tool name, and so is a failure of the gateway
    operation. *)
Theorem callTool_reports_errors
    (users_info : string -> lookup_outcome)
    (slack_api : gateway_call -> completion json) :
  (forall tool args st,
     tool ∈ tools ->
     all_present (required tool) args = false ->
     callTool users_info slack_api (tool_name tool) (Some args) st =
       (Returns (error_result (Error (missing_message (tool_name tool)))), st)) /\
  (forall name arguments st,
     exists result st',
       callTool users_info slack_api name arguments st = (Returns result, st') /\
       forall error st1,
         dispatch users_info slack_api name arguments st = (Throws error, st1) ->
         result = error_result error /\ st' = st1) /\
  (forall name args st,
     name ∉ map tool_name tools ->
     callTool users_info slack_api name (Some args) st =
       (Returns (error_result (Error ("Unknown tool: " +:+ name))), st)) /\
  (forall tool args st call error,
     tool ∈ tools ->
     all_present (required tool) args = true ->
     operation (tool_name tool) args = Some call ->
     slack_api call = Throws error ->
     callTool users_info slack_api (tool_name tool) (Some args) st =
       (Returns (error_result error), sent call st)).
Proof.
  split; [|split; [|split]].
  - intros tool args st. apply callTool_missing.
  - intros name arguments st. unfold callTool, catch.
    destruct (dispatch users_info slack_api name arguments st) as [[result|e] st'].
    + eexists _, _. split; [reflexivity|]. done.
    + eexists _, _. split; [reflexivity|]. by intros ? ? [= <- <-].
  - intros name args st. apply callTool_unknown.
  - intros tool args st call error Htool Hargs Hop Hapi.
    destruct (callTool_present users_info slack_api tool args st Htool Hargs)
      as (call' & Hop' & ->).
    assert (call' = call) as -> by congruence.
    unfold catch, bind, request. by rewrite Hapi.
Qed.

Lemma callTool_reports_errors_witness :
  all_present (required postMessageTool) [("text", JString "hi")] = false /\
  callTool only_U123 (fun _ => Returns posted) "slack_post_message"
    (Some [("text", JString "hi")]) client_init =
    (Returns (text_result
                (JObject [("error",
                           JString "Missing required arguments: channel_id and text")])),
     client_init).
Proof.
  split; [reflexivity|].
  apply (proj1 (callTool_reports_errors only_U123 (fun _ => Returns posted))
           postMessageTool [("text", JString "hi")] client_init).
  - unfold tools. set_solver.
  - reflexivity.
Defined.

(** ** C9 *)

(** C9.  Whatever the tool name, also for a tool without required
    arguments, a call without an argument object is answered with
    [{ error: "No arguments provided" }] and sends nothing. *)
Theorem callTool_without_arguments
    (users_info : string -> lookup_outcome)
    (slack_api : gateway_call -> completion json)
    (name : string) (st : client_state) :
  callTool users_info slack_api name None st =
    (Returns (text_result (JObject [("error", JString "No arguments provided")])), st).
Proof. reflexivity. Qed.

(** ** C10 *)

(** C10.  [slack_post_message] with an empty [text] is answered with
    the missing-arguments error and sends nothing, whatever
    [channel_id] is; and every [chat.postMessage] request the tool
    sends carries a truthy text, so never the empty string. *)
Theorem post_message_rejects_empty_text
    (users_info : string -> lookup_outcome)
    (slack_api : gateway_call -> completion json) :
  (forall args st,
     get_field "text" args = Some (JString "") ->
     callTool users_info slack_api "slack_post_message" (Some args) st =
       (Returns (error_result (Error "Missing required arguments: channel_id and text")),
        st)) /\
  (forall arguments st channel_id text,
     PostMessage channel_id text ∈
       requests (snd (callTool users_info slack_api "slack_post_message" arguments st)) ->
     PostMessage channel_id text ∈ requests st \/
     (truthy_opt text = true /\ text <> Some (JString ""))).
Proof.
  split.
  - intros args st Htext.
    apply (callTool_missing users_info slack_api postMessageTool).
    + unfold tools. set_solver.
    + unfold all_present. cbn -[get_field]. rewrite Htext. simpl.
      by rewrite andb_false_r.
  - intros [args|] st channel_id text; [|by left].
    destruct (all_present (required postMessageTool) args) eqn:Hargs.
    + destruct (callTool_present users_info slack_api postMessageTool args st)
        as (call & Hop & Hrun); [unfold tools; set_solver|done|].
      change (tool_name postMessageTool) with "slack_post_message" in Hrun.
      rewrite Hrun. injection Hop as <-.
      unfold all_present in Hargs. cbn -[get_field] in Hargs.
      rewrite andb_true_r in Hargs. apply andb_true_iff in Hargs as [_ Htext].
      unfold catch, bind, request, normalize_and_maybe_enrich, lift. cbn -[get_field].
      destruct (slack_api _) as [data|e]; cbn -[get_field];
        [destruct (convertTimestampsToISO data); cbn -[get_field]|];
        (rewrite elem_of_app, list_elem_of_singleton;
         intros [?|[= -> ->]]; [by left|right; split; [done|]];
         intros Heq; rewrite Heq in Htext; discriminate).
    + pose proof (callTool_missing users_info slack_api postMessageTool args st) as Hm.
      change (tool_name postMessageTool) with "slack_post_message" in Hm.
      rewrite Hm; [by left|unfold tools; set_solver|done].
Qed.

Lemma post_message_rejects_empty_text_witness :
  get_field "text" [("channel_id", JString "C1"); ("text", JString "")] =
    Some (JString "") /\
  callTool only_U123 (fun _ => Returns posted) "slack_post_message"
    (Some [("channel_id", JString "C1"); ("text", JString "")]) client_init =
    (Returns (text_result
                (JObject [("error",
                           JString "Missing required arguments: channel_id and text")])),
     client_init).
Proof.
  split; [reflexivity|].
  apply (proj1 (post_message_rejects_empty_text only_U123 (fun _ => Returns posted))).
  reflexivity.
Defined.

(* ===================================================================== *)
(** * Further properties                                               *)
(* ===================================================================== *)

(** ** Response enricher *)

Lemma or_else_nonempty a b : b <> "" -> or_else a b <> "".
Proof.
  intros Hb. unfold or_else. destruct a as [s|]; [|done].
  by destruct (String.eqb_spec s "").
Qed.

Lemma call_all_app users_info a b st :
  call_all users_info (a ++ b) st = call_all users_info b (call_all users_info a st).
Proof. unfold call_all. by rewrite fold_left_app. Qed.

Lemma call_all_resolve users_info ids : forall st i,
  resolve users_info (call_all users_info ids st) i = resolve users_info st i.
Proof.
  induction ids as [|id ids IH]; intros st i; [done|].
  simpl. rewrite IH.
  destruct (memoizedGetUser_spec users_info st id) as (st' & -> & Hr & _).
  by simpl.
Qed.

Section Calls.
Variable users_info : string -> lookup_outcome.
Variable r : string -> IdentityRecord.

Lemma mapM_calls {A B} (f : A -> M B) (g : A -> B) (h : A -> list string) l :
  (forall x st, (forall i, resolve users_info st i = r i) ->
     f x st = (Returns (g x), call_all users_info (h x) st)) ->
  forall st, (forall i, resolve users_info st i = r i) ->
    mapM f l st = (Returns (map g l), call_all users_info (flat_map h l) st).
Proof.
  intros Hf. induction l as [|x l IH]; intros st Hst; simpl; [done|].
  unfold bind. rewrite (Hf x st Hst).
  rewrite IH by (intros i; by rewrite call_all_resolve).
  by rewrite call_all_app.
Qed.

Lemma add_user_info_calls entries st :
  (forall i, resolve users_info st i = r i) ->
  add_user_info users_info entries st =
    (Returns (with_user_info r entries),
     call_all users_info
       (match user_to_resolve entries with Some u => [u] | None => [] end) st).
Proof.
  intros Hst. unfold add_user_info, with_user_info.
  destruct (user_to_resolve entries) as [u|]; [|done].
  unfold bind. simpl.
  destruct (memoizedGetUser_spec users_info st u) as (st' & -> & _ & _).
  by rewrite Hst.
Qed.

(** A run of the enricher is the tree of [enriched_tree] and the calls
    of [resolver_calls]. *)
Lemma enrich_fuel_calls fuel : forall obj st,
  (forall i, resolve users_info st i = r i) ->
  enrich_fuel users_info fuel obj st =
    (Returns (enriched_tree r fuel obj),
     call_all users_info (resolver_calls r fuel obj) st).
Proof.
  induction fuel as [|fuel IH]; intros obj st Hst; [done|].
  destruct obj as [ | b | x | s | items | entries ]; try done.
  - simpl. unfold bind.
    by rewrite (mapM_calls (enrich_fuel users_info fuel) (enriched_tree r fuel)
                  (resolver_calls r fuel) items IH st Hst).
  - simpl. unfold bind at 1. rewrite (add_user_info_calls entries st Hst).
    unfold bind at 1.
    erewrite (mapM_calls _
                (fun kv => if typeof_object (snd kv)
                           then (fst kv, enriched_tree r fuel (snd kv)) else kv)
                (fun kv => if typeof_object (snd kv)
                           then resolver_calls r fuel (snd kv) else [])).
    + by rewrite call_all_app.
    + intros [k v] st0 Hst0. simpl. destruct (typeof_object v); [|done].
      unfold bind. by rewrite (IH v st0 Hst0).
    + intros i. by rewrite call_all_resolve.
Qed.
End Calls.

Lemma enrichWithUserInfo_calls users_info obj st :
  enrichWithUserInfo users_info obj st =
    (Returns (enriched_tree (resolve users_info st) (S (depth obj)) obj),
     call_all users_info
       (resolver_calls (resolve users_info st) (S (depth obj)) obj) st).
Proof. by apply enrich_fuel_calls. Qed.

Lemma resolver_calls_match r fuel : forall obj id,
  id ∈ resolver_calls r fuel obj -> Regex.matches user_id_re id = true.
Proof.
  induction fuel as [|fuel IH]; intros obj id; simpl; [by intros ?%elem_of_nil|].
  destruct obj as [ | b | x | s | items | entries ]; try (by intros ?%elem_of_nil).
  - rewrite list_elem_of_In, in_flat_map. intros (x & _ & Hx).
    apply (IH x). by apply list_elem_of_In.
  - rewrite elem_of_app. intros [Hu|Hc].
    + destruct (user_to_resolve entries) as [u|] eqn:Hu'; [|by apply elem_of_nil in Hu].
      apply list_elem_of_singleton in Hu as ->.
      by apply user_to_resolve_Some in Hu' as (_ & ? & _).
    + rewrite list_elem_of_In, in_flat_map in Hc. destruct Hc as ([k v] & _ & Hx).
      simpl in Hx. destruct (typeof_object v); [|done].
      apply (IH v). by apply list_elem_of_In.
Qed.

Lemma memo_settle_issued key c st : issued (memo_settle key c st) = issued st.
Proof.
  unfold memo_settle. destruct (entries st !! key) as [[n|n r']|]; try done.
  by destruct c.
Qed.

Lemma memoizedGetUser_issued users_info id st x :
  x ∈ issued (memo (snd (memoizedGetUser users_info id st))) ->
  x ∈ issued (memo st) \/ x = id.
Proof.
  unfold memoizedGetUser, memo_call.
  destruct (entries (memo st) !! id) as [[n|n r0]|] eqn:Hid; simpl.
  - rewrite memo_settle_issued. by left.
  - by left.
  - unfold memo_settle. simpl. rewrite lookup_insert_eq.
    destruct (getUser id (users_info id)); simpl;
      rewrite elem_of_app, list_elem_of_singleton; tauto.
Qed.

Lemma call_all_issued users_info ids : forall st x,
  x ∈ issued (memo (call_all users_info ids st)) ->
  x ∈ issued (memo st) \/ x ∈ ids.
Proof.
  induction ids as [|id ids IH]; intros st x Hx; [by left|].
  simpl in Hx. apply IH in Hx as [Hx|Hx]; [|right; by right].
  apply memoizedGetUser_issued in Hx as [Hx| ->]; [by left|right; left].
Qed.

(** *** A resolved identifier costs nothing *)

Lemma memoizedGetUser_resolved_id users_info id st :
  is_resolved st id -> snd (memoizedGetUser users_info id st) = st.
Proof.
  intros (n & r & H). unfold memoizedGetUser, memo_call. rewrite H. simpl.
  by destruct st.
Qed.

Lemma memoizedGetUser_resolves users_info id st :
  is_resolved (snd (memoizedGetUser users_info id st)) id.
Proof.
  unfold memoizedGetUser, memo_call, is_resolved.
  destruct (getUser_returns id (users_info id)) as [r Hr].
  destruct (entries (memo st) !! id) as [[n|n r0]|] eqn:Hid; simpl; rewrite ?Hr.
  - unfold memo_settle. rewrite Hid. simpl. rewrite lookup_insert_eq. eauto.
  - eauto.
  - unfold memo_settle. simpl. rewrite lookup_insert_eq. simpl.
    rewrite lookup_insert_eq. eauto.
Qed.

Lemma memoizedGetUser_keeps_resolved users_info id st i :
  is_resolved st i -> is_resolved (snd (memoizedGetUser users_info id st)) i.
Proof.
  intros Hi. destruct (decide (id = i)) as [->|Hne];
    [apply memoizedGetUser_resolves|].
  destruct Hi as (n & r & Hi).
  unfold memoizedGetUser, memo_call, is_resolved.
  destruct (getUser_returns id (users_info id)) as [r' Hr].
  destruct (entries (memo st) !! id) as [[m|m r0]|] eqn:Hid; simpl; rewrite ?Hr.
  - unfold memo_settle. rewrite Hid. simpl. rewrite lookup_insert_ne by done. eauto.
  - eauto.
  - unfold memo_settle. simpl. rewrite lookup_insert_eq. simpl.
    rewrite !lookup_insert_ne by done. eauto.
Qed.

Lemma call_all_keeps_resolved users_info ids : forall st i,
  is_resolved st i -> is_resolved (call_all users_info ids st) i.
Proof.
  induction ids as [|id ids IH]; intros st i Hi; [done|].
  simpl. by apply IH, memoizedGetUser_keeps_resolved.
Qed.

Lemma call_all_resolves users_info ids : forall st i,
  i ∈ ids -> is_resolved (call_all users_info ids st) i.
Proof.
  induction ids as [|id ids IH]; intros st i Hi; [by apply elem_of_nil in Hi|].
  simpl. apply elem_of_cons in Hi as [->|Hi]; [|by apply IH].
  apply call_all_keeps_resolved, memoizedGetUser_resolves.
Qed.

Lemma call_all_resolved users_info ids : forall st,
  (forall i, i ∈ ids -> is_resolved st i) -> call_all users_info ids st = st.
Proof.
  induction ids as [|id ids IH]; intros st H; [done|].
  simpl. rewrite memoizedGetUser_resolved_id by (apply H; left).
  apply IH. intros i Hi. apply H. by right.
Qed.

Lemma enriched_tree_ext r r' fuel : forall obj,
  (forall i, r i = r' i) -> enriched_tree r fuel obj = enriched_tree r' fuel obj.
Proof.
  induction fuel as [|fuel IH]; intros obj Hr; [done|].
  destruct obj as [ | b | x | s | items | entries ]; try done; simpl.
  - f_equal. apply map_ext. intros x. by apply IH.
  - f_equal. unfold with_user_info.
    destruct (user_to_resolve entries) as [u|]; [rewrite !Hr|];
      apply map_ext; intros [k v]; simpl; by rewrite IH.
Qed.

Lemma resolver_calls_ext r r' fuel : forall obj,
  (forall i, r i = r' i) -> resolver_calls r fuel obj = resolver_calls r' fuel obj.
Proof.
  induction fuel as [|fuel IH]; intros obj Hr; [done|].
  destruct obj as [ | b | x | s | items | entries ]; try done; simpl.
  - apply flat_map_ext. intros x. by apply IH.
  - f_equal. unfold with_user_info.
    destruct (user_to_resolve entries) as [u|]; [rewrite !Hr|];
      apply flat_map_ext; intros [k v]; simpl; by rewrite IH.
Qed.

(** X1.  Enriching the same payload a second time returns the same tree
    and leaves the state as it is: no lookup is started. *)
Theorem second_enrichment_is_free
    (users_info : string -> lookup_outcome) (T : json) (st : client_state) :
  let first := enrichWithUserInfo users_info T st in
  enrichWithUserInfo users_info T (snd first) = first.
Proof.
  cbn zeta. rewrite !enrichWithUserInfo_calls. cbn [snd].
  set (r := resolve users_info st).
  set (st1 := call_all users_info (resolver_calls r (S (depth T)) T) st).
  assert (forall i, resolve users_info st1 i = r i) as Hr
    by (intros i; unfold st1; by rewrite call_all_resolve).
  rewrite (enriched_tree_ext _ r) by done.
  rewrite (resolver_calls_ext _ r) by done.
  f_equal. apply call_all_resolved. intros i Hi. by apply call_all_resolves.
Qed.

(** *** Enriching an enriched tree *)

Lemma descend_kind r fuel v :
  match descend (enriched_tree r fuel) v with
  | JString s => v = JString s
  | _ => match v with JString _ => False | _ => True end
  end /\
  truthy (descend (enriched_tree r fuel) v) = truthy v.
Proof. unfold descend. destruct fuel, v; simpl; done. Qed.

Lemma user_to_resolve_descend r fuel (entries : list (string * json)) :
  user_to_resolve
    (map (fun kv => (fst kv, descend (enriched_tree r fuel) (snd kv))) entries) =
  user_to_resolve entries.
Proof.
  unfold user_to_resolve. rewrite !get_field_map.
  assert (truthy_opt (descend (enriched_tree r fuel) <$>
                        get_field "user_display_name" entries) =
          truthy_opt (get_field "user_display_name" entries)) as ->.
  { destruct (get_field "user_display_name" entries) as [v|]; [|done].
    simpl. apply descend_kind. }
  destruct (get_field "user" entries) as [v|]; [|done]. simpl.
  destruct (descend_kind r fuel v) as [Hk _].
  destruct (descend (enriched_tree r fuel) v) eqn:Hd; destruct v; try done.
  by injection Hk as ->.
Qed.

Lemma user_to_resolve_named entries :
  truthy_opt (get_field "user_display_name" entries) = true ->
  user_to_resolve entries = None.
Proof.
  intros H. unfold user_to_resolve. rewrite H.
  destruct (get_field "user" entries) as [[ | | |s| | ]|]; try done.
  simpl. by rewrite andb_false_r.
Qed.

Lemma user_to_resolve_with_user_info r entries :
  names_users r -> user_to_resolve (with_user_info r entries) = None.
Proof.
  intros Hr. unfold with_user_info.
  destruct (user_to_resolve entries) as [u|] eqn:Hu; [|done].
  apply user_to_resolve_named. rewrite !get_field_set_field. simpl.
  apply user_to_resolve_Some in Hu as (_ & Hm & _).
  specialize (Hr u Hm). by destruct (String.eqb_spec (displayName (r u)) "").
Qed.

Lemma map_id_elem_of {A} (f : A -> A) l : (forall x, x ∈ l -> f x = x) -> map f l = l.
Proof.
  induction l as [|x l IH]; intros H; simpl; [done|].
  rewrite H by left. f_equal. apply IH. intros y Hy. apply H. by right.
Qed.

Lemma flat_map_nil_elem_of {A B} (f : A -> list B) l :
  (forall x, x ∈ l -> f x = []) -> flat_map f l = [].
Proof.
  induction l as [|x l IH]; intros H; simpl; [done|].
  rewrite H by left. apply IH. intros y Hy. apply H. by right.
Qed.

(** In an enriched tree no object passes the enrichment test any
    more. *)
Lemma enriched_tree_settled r :
  names_users r ->
  forall n T, depth T < n ->
  forall m, enriched_tree r m (enriched_tree r n T) = enriched_tree r n T /\
            resolver_calls r m (enriched_tree r n T) = [].
Proof.
  intros Hr. induction n as [|n IH]; intros T Hd m; [lia|].
  destruct T as [ | b | x | s | items | entries ];
    try (destruct m; done).
  - cbn [enriched_tree]. destruct m as [|m]; [done|]. cbn [enriched_tree resolver_calls].
    split.
    + f_equal. apply map_id_elem_of. intros y Hy.
      apply list_elem_of_fmap in Hy as (x & -> & Hx).
      apply IH. apply depth_item in Hx. lia.
    + apply flat_map_nil_elem_of. intros y Hy.
      apply list_elem_of_fmap in Hy as (x & -> & Hx).
      apply IH. apply depth_item in Hx. lia.
  - cbn [enriched_tree]. rewrite descend_entries.
    destruct m as [|m]; [done|]. cbn [enriched_tree resolver_calls].
    set (E := map (fun kv => (fst kv, descend (enriched_tree r n) (snd kv)))
                (with_user_info r entries)).
    assert (user_to_resolve E = None) as HE.
    { unfold E. rewrite user_to_resolve_descend.
      by apply user_to_resolve_with_user_info. }
    assert (with_user_info r E = E) as -> by (unfold with_user_info; by rewrite HE).
    rewrite HE. cbn [app].
    assert (forall kv, kv ∈ E ->
              typeof_object (snd kv) = true ->
              enriched_tree r m (snd kv) = snd kv /\ resolver_calls r m (snd kv) = [])
      as Hkv.
    { intros kv' Hkv' Hobj. unfold E in Hkv'.
      apply list_elem_of_fmap in Hkv' as ([k v] & -> & Hin). simpl in *.
      unfold descend in *. destruct (typeof_object v) eqn:Hv; [|congruence].
      apply IH. apply with_user_info_depth in Hin. simpl in *. lia. }
    split.
    + f_equal. apply map_id_elem_of. intros [k v] Hin.
      pose proof (Hkv _ Hin) as Hv'. simpl in *.
      destruct (typeof_object v); [|done]. by rewrite (proj1 (Hv' eq_refl)).
    + apply flat_map_nil_elem_of. intros [k v] Hin.
      pose proof (Hkv _ Hin) as Hv'. simpl in *.
      destruct (typeof_object v); [|done]. exact (proj2 (Hv' eq_refl)).
Qed.

Lemma getUser_names userId outcome :
  userId <> "" ->
  exists r, getUser userId outcome = Returns r /\
            displayName r <> "" /\ username r <> "".
Proof.
  intros Hid. unfold getUser.
  destruct outcome as [e|e| |data]; simpl; try (by eexists).
  destruct (ok data), (user data) as [u|]; simpl; try (by eexists).
  eexists; split; [reflexivity|]. simpl.
  split; repeat apply or_else_nonempty; done.
Qed.

(** From the empty cache every well-formed identifier gets a name. *)
Lemma names_users_init users_info : names_users (resolve users_info client_init).
Proof.
  intros u Hu. rewrite resolve_eq. simpl. rewrite lookup_empty.
  assert (u <> "") as Hne by (by intros ->).
  by destruct (getUser_names u (users_info u) Hne) as (r & -> & Hd & _).
Qed.

(** X2.  Enrichment is idempotent: enriching its own result returns
    that result and leaves the state as it is. *)
Theorem enrichment_idempotent
    (users_info : string -> lookup_outcome) (T T' : json) (st st' : client_state) :
  names_users (resolve users_info st) ->
  enrichWithUserInfo users_info T st = (Returns T', st') ->
  enrichWithUserInfo users_info T' st' = (Returns T', st').
Proof.
  intros Hr H. pose proof (enrichWithUserInfo_calls users_info T st) as H0.
  rewrite H in H0. clear H.
  set (r := resolve users_info st) in *.
  set (T1 := enriched_tree r (S (depth T)) T) in *.
  set (st1 := call_all users_info (resolver_calls r (S (depth T)) T) st) in *.
  injection H0 as -> ->.
  assert (forall i, resolve users_info st1 i = r i) as Hr1
    by (intros i; unfold st1; by rewrite call_all_resolve).
  rewrite enrichWithUserInfo_calls.
  rewrite (enriched_tree_ext _ r) by done.
  rewrite (resolver_calls_ext _ r) by done.
  destruct (enriched_tree_settled r Hr (S (depth T)) T (Nat.lt_succ_diag_r _)
              (S (depth T1))) as [H1 H2].
  fold T1 in H1, H2. by rewrite H1, H2.
Qed.

Lemma enrichment_idempotent_witness :
  names_users (resolve only_U123 client_init) /\
  exists T' st',
    enrichWithUserInfo only_U123 thread client_init = (Returns T', st') /\
    enrichWithUserInfo only_U123 T' st' = (Returns T', st').
Proof.
  split; [apply names_users_init|].
  destruct (enrichWithUserInfo only_U123 thread client_init) as [[T'|e] st'] eqn:H.
  - exists T', st'. split; [reflexivity|].
    exact (enrichment_idempotent only_U123 thread T' client_init st'
             (names_users_init only_U123) H).
  - exfalso. rewrite enrichWithUserInfo_calls in H. discriminate H.
Defined.

(** ** Tool router *)

Section RouterMore.
Variable users_info : string -> lookup_outcome.
Variable slack_api : gateway_call -> completion json.

Lemma pipeline_requests name call st :
  requests (snd (catch (let* data := request slack_api call in
                        normalize_and_maybe_enrich users_info name data)
                   (fun error => ret (error_result error)) st)) =
  requests st ++ [call].
Proof.
  unfold catch, bind at 1, request. destruct (slack_api call) as [data|e]; [|done].
  unfold normalize_and_maybe_enrich, bind at 1, lift.
  destruct (convertTimestampsToISO data) as [converted|e]; [|done].
  destruct (enriching name); [|done].
  unfold bind.
  match goal with |- context [enrichWithUserInfo users_info converted ?s] =>
    destruct (enrichWithUserInfo_spec users_info converted s) as (st' & -> & Hq) end.
  simpl. by rewrite Hq.
Qed.

Lemma accepted_tool tool args :
  tool ∈ tools -> accepted (tool_name tool) args = all_present (required tool) args.
Proof.
  intros Htool. each_tool Htool; unfold accepted; cbn -[all_present];
    rewrite ?orb_false_r; reflexivity.
Qed.

Lemma accepted_unknown name args :
  name ∉ map tool_name tools -> accepted name args = false.
Proof.
  intros Hname. unfold accepted, tools. cbn -[all_present String.eqb].
  repeat match goal with
         | |- context [String.eqb ?s name] =>
             destruct (String.eqb_spec s name) as [<-|_];
             [exfalso; apply Hname; cbn; set_solver|]
         end.
  reflexivity.
Qed.

(** What one call of the handler does, by cases. *)
Lemma callTool_cases name args st :
  (accepted name args = true /\
   exists call, operation name args = Some call /\
     callTool users_info slack_api name (Some args) st =
       catch (let* data := request slack_api call in
              normalize_and_maybe_enrich users_info name data)
             (fun error => ret (error_result error)) st) \/
  (accepted name args = false /\
   exists message,
     callTool users_info slack_api name (Some args) st =
       (Returns (error_result (Error message)), st)).
Proof.
  destruct (decide (name ∈ map tool_name tools)) as [Hin|Hout].
  - apply list_elem_of_fmap in Hin as (tool & -> & Htool).
    rewrite (accepted_tool tool args Htool).
    destruct (all_present (required tool) args) eqn:Hp.
    + left. split; [done|]. by apply callTool_present.
    + right. split; [done|]. eexists. by apply callTool_missing.
  - right. split; [by apply accepted_unknown|].
    eexists. by apply callTool_unknown.
Qed.
End RouterMore.

(** X3.  A call of the handler calls at most one gateway method, so it
    sends at most one gateway request.  It sends none when the
    arguments are absent, a required argument is missing or the tool is
    unknown.  It sends exactly the request of the tool when the tool is
    in the catalog, every argument its check requires is there, and
    the arguments have the types the gateway method declares, so that
    the method reaches its [fetch]. *)
Theorem callTool_sends_one_request_when_accepted
    (users_info : string -> lookup_outcome)
    (slack_api : gateway_call -> completion json)
    (Number_toString : number -> string) (env : string -> option string)
    (client : SlackClient)
    (name : string) (arguments : option (list (string * json)))
    (st : client_state) :
  exists sent_now,
    requests (snd (callTool users_info slack_api name arguments st)) =
      requests st ++ sent_now /\
    length sent_now <= 1 /\
    (arguments = None -> sent_now = []) /\
    (forall args, arguments = Some args -> accepted name args = false ->
       sent_now = []) /\
    (forall args call req,
       arguments = Some args -> accepted name args = true ->
       operation name args = Some call ->
       fetch_of Number_toString env client call = Some req ->
       sent_now = [call]).
Proof.
  destruct arguments as [args|].
  - destruct (callTool_cases users_info slack_api name args st)
      as [(Hacc & call & Hop & ->)|(Hacc & message & ->)].
    + exists [call]. split; [apply pipeline_requests|]. split; [simpl; lia|].
      split; [done|]. split.
      * intros ? [= <-]. congruence.
      * intros ? call' req [= <-] _ Hop' _. congruence.
    + exists []. split; [by rewrite app_nil_r|]. split; [simpl; lia|].
      split; [done|]. split; [done|].
      intros ? call req [= <-]. congruence.
  - exists []. split; [by rewrite app_nil_r|]. split; [simpl; lia|]. done.
Qed.

Lemma callTool_sends_one_request_when_accepted_witness :
  requests (snd (callTool only_U123 (fun _ => Returns posted)
                   "slack_get_channel_history" (Some history_args) client_init)) =
    [GetChannelHistory (Some (JString "C1")) (Some (JNumber (S754_finite false 5 0)))].
Proof.
  destruct (callTool_sends_one_request_when_accepted only_U123 (fun _ => Returns posted)
              integer_toString sample_env (new_SlackClient "xoxp-1")
              "slack_get_channel_history" (Some history_args) client_init)
    as (sent_now & Hreq & _ & _ & _ & Hsent).
  rewrite Hreq.
  by rewrite (Hsent history_args _ _ eq_refl eq_refl eq_refl eq_refl).
Defined.

(** X4.  The handler reads only the parameters of the schema of the
    tool: two argument objects that agree on them get the same reply and
    leave the same state. *)
Theorem callTool_ignores_other_arguments
    (users_info : string -> lookup_outcome)
    (slack_api : gateway_call -> completion json)
    (tool : Tool) (args args' : list (string * json)) (st : client_state) :
  tool ∈ tools ->
  (forall k, k ∈ parameters (tool_name tool) -> get_field k args = get_field k args') ->
  callTool users_info slack_api (tool_name tool) (Some args) st =
  callTool users_info slack_api (tool_name tool) (Some args') st.
Proof.
  intros Htool. each_tool Htool; cbn -[get_field]; intros H;
    unfold callTool, dispatch, missing; cbn -[get_field];
    repeat match goal with
           | |- context [get_field ?k args] =>
               rewrite (H k) by (cbn; set_solver)
           end;
    reflexivity.
Qed.

Lemma callTool_ignores_other_arguments_witness :
  callTool only_U123 (fun _ => Returns posted) "slack_post_message"
    (Some (("unfurl", JBool true) :: post_args)) client_init =
  callTool only_U123 (fun _ => Returns posted) "slack_post_message"
    (Some post_args) client_init.
Proof.
  apply (callTool_ignores_other_arguments only_U123 (fun _ => Returns posted)
           postMessageTool (("unfurl", JBool true) :: post_args) post_args client_init).
  - unfold tools. set_solver.
  - intros k Hk. cbn in Hk.
    apply elem_of_cons in Hk as [->|Hk]; [reflexivity|].
    apply elem_of_cons in Hk as [->|Hk]; [reflexivity|].
    by apply elem_of_nil in Hk.
Defined.

(** ** Requests *)

(** ** Numbers *)

Lemma SFcompare_antisym x y c :
  SFcompare x y = Some c -> SFcompare y x = Some (CompOpp c).
Proof.
  destruct x as [sx|sx| |sx mx ex], y as [sy|sy| |sy my ey]; simpl;
    try discriminate; intros [= <-];
    try (destruct sx; try destruct sy; reflexivity); try (by destruct sy).
  destruct sx, sy; try reflexivity.
  - rewrite (Z.compare_antisym ex ey). destruct (ex ?= ey)%Z; simpl; try reflexivity.
    by rewrite (Pos.compare_cont_antisym mx my Eq).
  - rewrite (Z.compare_antisym ex ey). destruct (ex ?= ey)%Z; simpl; try reflexivity.
    by rewrite (Pos.compare_cont_antisym mx my Eq).
Qed.

Lemma number_le_of_not_lt x y :
  is_nan x = false -> is_nan y = false ->
  number_lt y x = false -> number_le x y = true.
Proof.
  unfold number_lt, number_le, SFltb, SFleb. intros Hx Hy.
  destruct (SFcompare y x) as [c|] eqn:Hc.
  - rewrite (SFcompare_antisym _ _ _ Hc). by destruct c.
  - by destruct x, y.
Qed.

Lemma number_lt_of_le x y :
  number_le x y = true -> number_lt y x = false.
Proof.
  unfold number_lt, number_le, SFltb, SFleb.
  destruct (SFcompare x y) as [c|] eqn:Hc; [|done].
  rewrite (SFcompare_antisym _ _ _ Hc). by destruct c.
Qed.

(** [Math.min] against the positive constant of a cap. *)
Lemma Math_min_cap x m e :
  let cap := S754_finite false m e in
  (is_nan x = true /\ Math_min x cap = S754_nan) \/
  (is_nan x = false /\
   number_le (Math_min x cap) cap = true /\
   (number_le x cap = true -> Math_min x cap = x)).
Proof.
  cbn zeta. destruct (is_nan x) eqn:Hx; [left; by destruct x|right].
  split; [done|]. unfold Math_min. rewrite Hx. cbn [is_nan orb].
  set (cap := S754_finite false m e).
  assert (number_le cap cap = true) as Hcc.
  { unfold number_le, SFleb, cap. simpl. rewrite Z.compare_refl.
    by rewrite Pos.compare_cont_refl. }
  destruct (number_lt x (S754_infinity false)) eqn:Hinf.
  - destruct (number_lt cap x) eqn:Hlt.
    + split; [done|]. intros Hle. apply number_lt_of_le in Hle. congruence.
    + split; [|done]. by apply number_le_of_not_lt.
  - assert (x = S754_infinity false) as ->.
    { destruct x as [s|[]| |[] ? ?]; try done. }
    by split.
Qed.

(** ** Requests *)

Section GatewayProofs.
Variable Number_toString : number -> string.
Variable env : string -> option string.
Variable client : SlackClient.

Lemma fetch_of_headers c req :
  fetch_of Number_toString env client c = Some req ->
  fetch_headers req = headers client.
Proof.
  destruct c; simpl; intros H; simplify_option_eq; reflexivity.
Qed.

End GatewayProofs.

Lemma main_started env slackClient :
  main env = Started slackClient ->
  exists token,
    env_or (env "SLACK_TOKEN") (env "SLACK_BOT_TOKEN") = Some token /\
    token <> "" /\ slackClient = new_SlackClient token.
Proof.
  unfold main.
  destruct (env_or (env "SLACK_TOKEN") (env "SLACK_BOT_TOKEN")) as [t|]; [|done].
  destruct (env "SLACK_TEAM_ID") as [team|]; [|done].
  destruct (String.eqb_spec t "") as [->|Hne]; [done|].
  destruct (String.eqb team ""); [done|]. simpl.
  intros [= <-]. eauto.
Qed.

Lemma upper_alnum_alphabet c :
  Regex.alphabet user_id_re c = true -> upper_alnum c = true.
Proof.
  destruct c as [[] [] [] [] [] [] [] []]; vm_compute; auto.
Qed.

Lemma capped_intro Number_toString k m e default given req limit' :
  number_argument default given = Some limit' ->
  search_get k (search req) =
    Some (Number_toString (Math_min limit' (S754_finite false m e))) ->
  Math_min default (S754_finite false m e) = default ->
  capped Number_toString k (S754_finite false m e) default given req.
Proof.
  intros Harg Hget Hdef. exists (Math_min limit' (S754_finite false m e)).
  split; [done|].
  destruct (Math_min_cap limit' m e) as [[Hn Hm]|(Hn & Hle & Hin)]; cbn zeta in *.
  - split; [|split].
    + intros ->. simpl in Harg. injection Harg as <-. done.
    + left. by rewrite Hm.
    + intros y -> Hy. simpl in Harg. injection Harg as <-. by destruct y.
  - split; [|split].
    + intros ->. simpl in Harg. injection Harg as <-. done.
    + by right.
    + intros y -> Hy. simpl in Harg. injection Harg as <-. by apply Hin.
Qed.

(** X5.  The list and search requests are capped: [conversations.list]
    and [users.list] ask for at most 200 entries (100 when no limit is
    given), [search.messages] for at most 100 (20 when no count is
    given); a value within the cap is sent as given. *)
Theorem list_limits_are_capped
    (Number_toString : number -> string) (env : string -> option string)
    (client : SlackClient) (call : gateway_call) (req : fetch_call) :
  fetch_of Number_toString env client call = Some req ->
  match call with
  | GetChannels limit _ | GetUsers limit _ =>
      capped Number_toString "limit" (number_of_Z 200) (number_of_Z 100) limit req
  | SearchMessages _ count _ _ _ _ =>
      capped Number_toString "count" (number_of_Z 100) (number_of_Z 20) count req
  | _ => True
  end.
Proof.
  destruct call; try done; simpl; intros H; simplify_option_eq;
    (eapply (capped_intro Number_toString); [eassumption|reflexivity|reflexivity]).
Qed.

Lemma list_limits_are_capped_witness :
  capped integer_toString "limit" (number_of_Z 200) (number_of_Z 100)
    (Some (JNumber (number_of_Z 1000)))
    (get (new_SlackClient "xoxp-1") "https://slack.com/api/conversations.list?"
       [("types", "public_channel"); ("exclude_archived", "true");
        ("limit", "200"); ("team_id", "T01234567")]).
Proof.
  exact (list_limits_are_capped integer_toString sample_env (new_SlackClient "xoxp-1")
           (GetChannels (Some (JNumber (number_of_Z 1000))) None) _ eq_refl).
Defined.

(** X6.  A started server authorizes every request with the configured
    token: [SLACK_TOKEN] when that is set and not empty, otherwise
    [SLACK_BOT_TOKEN]. *)
Theorem every_request_carries_the_token
    (Number_toString : number -> string) (env : string -> option string)
    (client : SlackClient) :
  main env = Started client ->
  exists token,
    env_or (env "SLACK_TOKEN") (env "SLACK_BOT_TOKEN") = Some token /\
    token <> "" /\
    (is_set (env "SLACK_TOKEN") = true -> env "SLACK_TOKEN" = Some token) /\
    (forall call req,
       fetch_of Number_toString env client call = Some req ->
       fetch_headers req = [("Authorization", "Bearer " +:+ token);
                            ("Content-Type", "application/json")]) /\
    (forall userId,
       fetch_headers (users_info_fetch client userId) =
         [("Authorization", "Bearer " +:+ token);
          ("Content-Type", "application/json")]).
Proof.
  intros Hmain. destruct (main_started env client Hmain) as (token & Htok & Hne & ->).
  exists token. split; [done|]. split; [done|]. split; [|split].
  - unfold env_or in Htok. destruct (env "SLACK_TOKEN") as [s|]; [|done].
    simpl. by destruct (String.eqb s "").
  - intros call req Hreq. by rewrite (fetch_of_headers _ _ _ _ _ Hreq).
  - done.
Qed.

Lemma every_request_carries_the_token_witness :
  main sample_env = Started (new_SlackClient "xoxp-1") /\
  fetch_headers (users_info_fetch (new_SlackClient "xoxp-1") "U123") =
    [("Authorization", "Bearer xoxp-1"); ("Content-Type", "application/json")].
Proof.
  split; [reflexivity|].
  destruct (every_request_carries_the_token integer_toString sample_env
              (new_SlackClient "xoxp-1") eq_refl) as (token & Htok & _ & _ & _ & H).
  injection Htok as <-. apply H.
Defined.

(** X7.  Messages and replies are posted with [as_user] set exactly when
    the configured token is a user token, one that starts with
    [xoxp-]. *)
Theorem posts_as_user_iff_user_token
    (Number_toString : number -> string) (env : string -> option string)
    (client : SlackClient) (call : gateway_call) (req : fetch_call) :
  main env = Started client ->
  match call with PostMessage _ _ | PostReply _ _ _ => True | _ => False end ->
  fetch_of Number_toString env client call = Some req ->
  exists token fields,
    env_or (env "SLACK_TOKEN") (env "SLACK_BOT_TOKEN") = Some token /\
    url req = "https://slack.com/api/chat.postMessage" /\
    method req = "POST" /\
    body req = Some (JSON_stringify (JObject fields)) /\
    get_field "as_user" fields = Some (JBool (startsWith token "xoxp-")).
Proof.
  intros Hmain Hcall Hreq.
  destruct (main_started env client Hmain) as (token & Htok & Hne & ->).
  exists token.
  destruct call as [| ch tx | ch th tx | | | | | | ]; try done;
    simpl in Hreq; injection Hreq as <-; eexists; (split; [done|]);
    (split; [reflexivity|]); (split; [reflexivity|]); (split; [reflexivity|]).
  - by destruct ch, tx.
  - by destruct ch, th, tx.
Qed.

Lemma posts_as_user_iff_user_token_witness :
  exists token fields,
    env_or (sample_env "SLACK_TOKEN") (sample_env "SLACK_BOT_TOKEN") = Some token /\
    url (post (new_SlackClient "xoxp-1") "https://slack.com/api/chat.postMessage"
           [("channel", JString "C1"); ("text", JString "hi"); ("as_user", JBool true)]) =
      "https://slack.com/api/chat.postMessage" /\
    method (post (new_SlackClient "xoxp-1") "https://slack.com/api/chat.postMessage"
           [("channel", JString "C1"); ("text", JString "hi"); ("as_user", JBool true)]) =
      "POST" /\
    body (post (new_SlackClient "xoxp-1") "https://slack.com/api/chat.postMessage"
           [("channel", JString "C1"); ("text", JString "hi"); ("as_user", JBool true)]) =
      Some (JSON_stringify (JObject fields)) /\
    get_field "as_user" fields = Some (JBool (startsWith token "xoxp-")).
Proof.
  exact (posts_as_user_iff_user_token integer_toString sample_env
           (new_SlackClient "xoxp-1")
           (PostMessage (Some (JString "C1")) (Some (JString "hi"))) _
           eq_refl Logic.I eq_refl).
Defined.

(** X8.  The process starts exactly when a token and the team id are
    configured: [SLACK_TOKEN] or [SLACK_BOT_TOKEN] set and not empty,
    and [SLACK_TEAM_ID] set and not empty.  Otherwise it exits with
    status 1. *)
Theorem main_starts_iff_configured (env : string -> option string) :
  main env =
    if (is_set (env "SLACK_TOKEN") || is_set (env "SLACK_BOT_TOKEN")) &&
       is_set (env "SLACK_TEAM_ID")
    then Started (new_SlackClient
                    (default "" (if is_set (env "SLACK_TOKEN")
                                 then env "SLACK_TOKEN" else env "SLACK_BOT_TOKEN")))
    else Exit 1 please_set.
Proof.
  unfold main, env_or, is_set.
  destruct (env "SLACK_TOKEN") as [a|], (env "SLACK_BOT_TOKEN") as [b|],
    (env "SLACK_TEAM_ID") as [t|]; cbn [negb orb andb default];
    repeat match goal with
           | |- context [String.eqb ?s ""] =>
               destruct (String.eqb s "") eqn:?; cbn [negb orb andb default]
           end; try reflexivity; congruence.
Qed.

(** X9.  Every upstream lookup the enricher starts is for an identifier
    that matches the pattern of user identifiers.  The identifier goes
    into the URL of [users.info] as it is; it is never empty and made
    of [A-Z0-9] only, so the URL has no character that needs
    escaping. *)
Theorem resolver_urls_are_well_formed
    (users_info : string -> lookup_outcome) (T : json) (st : client_state)
    (client : SlackClient) (id : string) :
  id ∈ issued (memo (snd (enrichWithUserInfo users_info T st))) ->
  id ∈ issued (memo st) \/
  (Regex.matches user_id_re id = true /\
   url (users_info_fetch client id) = "https://slack.com/api/users.info?user=" +:+ id /\
   id <> "" /\ string_forall upper_alnum id = true).
Proof.
  rewrite enrichWithUserInfo_calls. cbn [snd]. intros H.
  apply call_all_issued in H as [H|H]; [by left|right].
  pose proof (resolver_calls_match _ _ _ _ H) as Hm.
  split; [done|]. split; [done|]. split; [by intros ->|].
  apply matches_alphabet in Hm.
  eapply string_forall_impl; [|exact Hm]. apply upper_alnum_alphabet.
Qed.

Lemma resolver_urls_are_well_formed_witness :
  "U123" ∈ issued (memo (snd (enrichWithUserInfo only_U123 thread client_init))) /\
  ("U123" ∈ issued (memo client_init) \/
   (Regex.matches user_id_re "U123" = true /\
    url (users_info_fetch (new_SlackClient "xoxp-1") "U123") =
      "https://slack.com/api/users.info?user=" +:+ "U123" /\
    "U123" <> "" /\ string_forall upper_alnum "U123" = true)).
Proof.
  assert ("U123" ∈ issued (memo (snd (enrichWithUserInfo only_U123 thread client_init))))
    as H by (vm_compute; left).
  split; [exact H|].
  exact (resolver_urls_are_well_formed only_U123 thread client_init
           (new_SlackClient "xoxp-1") "U123" H).
Defined.


Lemma append_if_truthy_inv k given params :
  append_if_truthy k given = Some params ->
  params = match given with
           | Some (JString s) => if String.eqb s "" then [] else [(k, s)]
           | _ => []
           end.
Proof.
  unfold append_if_truthy.
  destruct given as [[| | |s| |]|]; simpl;
    try (destruct (String.eqb s "")); simpl;
    repeat match goal with |- context [if ?b then _ else _] => destruct b end;
    congruence.
Qed.



(** X11.  An optional parameter is sent only when it is given and not
    empty: [cursor], [sort] and [sort_dir] go into the request as they
    are when they are non-empty strings and are left out otherwise, and
    [highlight] is sent, as [true], exactly when it is truthy. *)
Theorem optional_parameters_sent_only_when_given
    (Number_toString : number -> string) (env : string -> option string)
    (client : SlackClient) (call : gateway_call) (req : fetch_call) :
  fetch_of Number_toString env client call = Some req ->
  match call with
  | GetChannels _ cursor | GetUsers _ cursor => optional "cursor" cursor req
  | SearchMessages _ _ cursor highlight sort sort_dir =>
      optional "cursor" cursor req /\
      optional "sort" sort req /\
      optional "sort_dir" sort_dir req /\
      search_get "highlight" (search req) =
        if truthy_opt highlight then Some "true" else None
  | _ => True
  end.
Proof.
  destruct call; try done; simpl; intros H; simplify_option_eq;
    repeat match goal with
           | H : append_if_truthy _ _ = Some _ |- _ =>
               apply append_if_truthy_inv in H; subst
           end;
    unfold optional; simpl.
  - destruct cursor as [[| | |s| |]|]; try done. by destruct (String.eqb s "").
  - destruct cursor as [[| | |s| |]|]; try done. by destruct (String.eqb s "").
  - destruct (truthy_opt highlight);
      destruct cursor as [[| | |s1| |]|]; try destruct (String.eqb s1 "");
      destruct sort as [[| | |s2| |]|]; try destruct (String.eqb s2 "");
      destruct sort_dir as [[| | |s3| |]|]; try destruct (String.eqb s3 "");
      done.
Qed.

Lemma optional_parameters_sent_only_when_given_witness :
  optional "cursor" (Some (JString ""))
    (get (new_SlackClient "xoxp-1") "https://slack.com/api/users.list?"
       [("limit", "100"); ("team_id", "T01234567")]).
Proof.
  exact (optional_parameters_sent_only_when_given integer_toString sample_env
           (new_SlackClient "xoxp-1") (GetUsers None (Some (JString ""))) _ eq_refl).
Defined.

(** ** Resolver and router *)

Section RouterMemo.
Variable users_info : string -> lookup_outcome.
Variable slack_api : gateway_call -> completion json.

Lemma pipeline_memo name call st :
  enriching name = false ->
  memo (snd (catch (let* data := request slack_api call in
                    normalize_and_maybe_enrich users_info name data)
               (fun error => ret (error_result error)) st)) = memo st.
Proof.
  intros Hname.
  unfold catch, bind at 1, request. destruct (slack_api call) as [data|e]; [|done].
  unfold normalize_and_maybe_enrich, bind at 1, lift.
  destruct (convertTimestampsToISO data) as [converted|e]; [|done].
  by rewrite Hname.
Qed.
End RouterMemo.

(** X12.  The resolver always has a name to show: for an identifier that
    is not empty, whatever the lookup does (the request fails, the body
    is not JSON, the answer is not ok or has no usable name), it returns
    a record whose display name and handle are both non-empty. *)
Theorem resolver_names_are_never_empty (userId : string) (outcome : lookup_outcome) :
  userId <> "" ->
  exists r, getUser userId outcome = Returns r /\
            displayName r <> "" /\ username r <> "".
Proof. apply getUser_names. Qed.

Lemma resolver_names_are_never_empty_witness :
  exists r, getUser "U123" (JsonData ada) = Returns r /\
            displayName r <> "" /\ username r <> "".
Proof.
  apply (resolver_names_are_never_empty "U123" (JsonData ada)). discriminate.
Defined.

(** X13.  Only the three message-reading tools consult the resolver: a
    call of any other tool, or of an unknown one, with or without
    arguments, leaves the resolution cache and the list of upstream
    lookups as they were. *)
Theorem other_tools_leave_the_resolver_alone
    (users_info : string -> lookup_outcome)
    (slack_api : gateway_call -> completion json)
    (name : string) (arguments : option (list (string * json))) (st : client_state) :
  enriching name = false ->
  memo (snd (callTool users_info slack_api name arguments st)) = memo st.
Proof.
  intros Hname. destruct arguments as [args|]; [|reflexivity].
  destruct (callTool_cases users_info slack_api name args st)
    as [(_ & call & _ & ->)|(_ & message & ->)]; [|done].
  by apply pipeline_memo.
Qed.

Lemma other_tools_leave_the_resolver_alone_witness :
  memo (snd (callTool only_U123 (fun _ => Returns posted) "slack_post_message"
               (Some post_args) client_init)) = memo client_init.
Proof.
  apply (other_tools_leave_the_resolver_alone only_U123 (fun _ => Returns posted)
           "slack_post_message" (Some post_args) client_init).
  reflexivity.
Defined.
